(** * Resume parsing pipeline of the Electron main process (src/main/main.js)

    A shallow embedding of [parseModelReplyToJson], [extractTextFromResumeFile],
    [initModel] and the ['parse-resume-pdf'] IPC handler, together with the
    parts of the JavaScript runtime they rely on: strings as sequences of
    UTF-16 code units, JSON values, [JSON.parse], the two fence regular
    expressions, [indexOf] / [lastIndexOf] / [slice]. *)

From Stdlib Require Import List ZArith NArith Bool Ascii String Lia.
Import ListNotations.

Set Warnings "-register-all".

(** ** JavaScript strings and values *)

(** A JavaScript string is a sequence of 16-bit code units. *)
Definition jsstring := list N.

Definition ch (a : ascii) : N := N_of_ascii a.

Arguments ch : simpl never.

(** The code units of an ASCII literal. *)
Definition u (s : string) : jsstring := map ch (list_ascii_of_string s).

Arguments u : simpl never.

Definition c_quote : N := 34.
Definition c_backslash : N := 92.
Definition c_lbrace : N := 123.
Definition c_rbrace : N := 125.
Definition c_lbracket : N := 91.
Definition c_rbracket : N := 93.
Definition c_comma : N := 44.
Definition c_colon : N := 58.
Definition c_minus : N := 45.
Definition c_plus : N := 43.
Definition c_dot : N := 46.
Definition c_slash : N := 47.
Definition c_backtick : N := 96.

Fixpoint str_eqb (a b : jsstring) : bool :=
  match a, b with
  | [], [] => true
  | x :: a', y :: b' => N.eqb x y && str_eqb a' b'
  | _, _ => false
  end.

(** A number literal is kept as the exact decimal it denotes,
    [(-1)^neg * mant * 10^exp10].  Rounding to binary64 is modelled only as
    far as the program observes it: whether the number is zero (falsy). *)
Record number := mkNumber { neg : bool; mant : N; exp10 : Z }.

(** A decimal rounds to (plus or minus) zero when it is zero or when its
    magnitude is at most half the smallest subnormal, [2^-1075] (ties go to
    the even neighbour, which is zero). *)
Definition rounds_to_zero (n : number) : bool :=
  N.eqb (mant n) 0
  || (Z.ltb (exp10 n) 0
      && Z.leb (Z.of_N (mant n) * 2 ^ 1075) (10 ^ (- exp10 n))).

Inductive value : Type :=
| VUndefined
| VNull
| VBool (b : bool)
| VNum (n : number)
| VStr (s : jsstring)
| VArr (l : list value)
| VObj (m : list (jsstring * value)).

(** ToBoolean. *)
Definition truthy (v : value) : bool :=
  match v with
  | VUndefined | VNull => false
  | VBool b => b
  | VNum n => negb (rounds_to_zero n)
  | VStr [] => false
  | VStr (_ :: _) => true
  | VArr _ | VObj _ => true
  end.

(** [typeof v === 'object'] (true of [null], arrays and plain objects). *)
Definition typeof_object (v : value) : bool :=
  match v with
  | VNull | VArr _ | VObj _ => true
  | _ => false
  end.


(** *** Object property order

    Own properties enumerate array-index keys first, in ascending numeric
    order, then the other string keys in insertion order; defining an
    existing key replaces its value in place. *)

Definition is_digit (c : N) : bool := N.leb 48 c && N.leb c 57.

Definition of_digits (ds : list N) : N :=
  fold_left (fun a d => 10 * a + d)%N ds 0%N.

(** A canonical array index: decimal digits without a leading zero (but "0"
    itself), below [2^32 - 1]. *)
Definition array_index (k : jsstring) : option N :=
  match k with
  | [] => None
  | c :: r =>
    if forallb is_digit k && (negb (N.eqb c 48) || match r with [] => true | _ => false end)
       && Nat.leb (List.length k) 10
    then
      let n := of_digits (map (fun d => d - 48)%N k) in
      if N.ltb n 4294967295 then Some n else None
    else None
  end.

(** Whether a new key [k] is enumerated before the existing key [k']. *)
Definition key_before (k k' : jsstring) : bool :=
  match array_index k, array_index k' with
  | Some i, Some j => N.ltb i j
  | Some _, None => true
  | None, _ => false
  end.

Fixpoint obj_set (k : jsstring) (v : value) (m : list (jsstring * value))
  : list (jsstring * value) :=
  match m with
  | [] => [(k, v)]
  | (k', v') :: m' =>
    if str_eqb k k' then (k, v) :: m'
    else if key_before k k' then (k, v) :: (k', v') :: m'
    else (k', v') :: obj_set k v m'
  end.

(** Property read [o.k]; [None] stands for [undefined] (absent). *)
Fixpoint obj_get (k : jsstring) (m : list (jsstring * value)) : option value :=
  match m with
  | [] => None
  | (k', v) :: m' => if str_eqb k k' then Some v else obj_get k m'
  end.

(** ** Completions: a call returns a value or throws *)

Inductive exn : Type :=
| SyntaxError
| TypeError
| ModelFileMissing
| External (code : N).

Inductive completion (A : Type) : Type :=
| Return (a : A)
| Throw (e : exn).

Arguments Return {A} a.
Arguments Throw {A} e.

(** ** JSON.parse *)

Definition is_ws (c : N) : bool :=
  N.eqb c 32 || N.eqb c 9 || N.eqb c 10 || N.eqb c 13.

Fixpoint skip_ws (s : jsstring) : jsstring :=
  match s with
  | c :: r => if is_ws c then skip_ws r else s
  | [] => []
  end.

(** [strip_prefix p s] is the rest of [s] after the prefix [p], if [s] starts
    with [p]. *)
Fixpoint strip_prefix (p s : jsstring) : option jsstring :=
  match p with
  | [] => Some s
  | x :: p' =>
    match s with
    | y :: s' => if N.eqb x y then strip_prefix p' s' else None
    | [] => None
    end
  end.

(** The longest run of decimal digits at the head of [s], as digit values,
    and what follows it. *)
Fixpoint span_digits (s : jsstring) : list N * jsstring :=
  match s with
  | c :: r =>
    if is_digit c
    then let (ds, r') := span_digits r in ((c - 48)%N :: ds, r')
    else ([], s)
  | [] => ([], [])
  end.

Definition hex_val (c : N) : option N :=
  if is_digit c then Some (c - 48)%N
  else if N.leb 97 c && N.leb c 102 then Some (c - 87)%N
  else if N.leb 65 c && N.leb c 70 then Some (c - 55)%N
  else None.

Definition hex4 (a b c d : N) : option N :=
  match hex_val a, hex_val b, hex_val c, hex_val d with
  | Some x, Some y, Some z, Some w => Some (((x * 16 + y) * 16 + z) * 16 + w)%N
  | _, _, _, _ => None
  end.

Definition simple_escape (e : N) : option N :=
  if N.eqb e c_quote then Some c_quote
  else if N.eqb e c_backslash then Some c_backslash
  else if N.eqb e c_slash then Some c_slash
  else if N.eqb e (ch "b") then Some 8%N
  else if N.eqb e (ch "f") then Some 12%N
  else if N.eqb e (ch "n") then Some 10%N
  else if N.eqb e (ch "r") then Some 13%N
  else if N.eqb e (ch "t") then Some 9%N
  else None.

(** The characters of a string literal after its opening quote: the decoded
    string and what follows the closing quote. *)
Fixpoint parse_string (s : jsstring) : option (jsstring * jsstring) :=
  match s with
  | [] => None
  | c :: r =>
    if N.eqb c c_quote then Some ([], r)
    else if N.eqb c c_backslash then
      match r with
      | [] => None
      | e :: r1 =>
        if N.eqb e (ch "u") then
          match r1 with
          | h1 :: h2 :: h3 :: h4 :: r2 =>
            match hex4 h1 h2 h3 h4, parse_string r2 with
            | Some x, Some (str, rest) => Some (x :: str, rest)
            | _, _ => None
            end
          | _ => None
          end
        else
          match simple_escape e, parse_string r1 with
          | Some x, Some (str, rest) => Some (x :: str, rest)
          | _, _ => None
          end
      end
    else if N.ltb c 32 then None
    else
      match parse_string r with
      | Some (str, rest) => Some (c :: str, rest)
      | None => None
      end
  end.

(** A number literal: an optional minus sign; an integer part, either a
    single 0 or a nonzero digit followed by digits; optionally a dot and at
    least one digit; optionally e or E, an optional sign and at least one
    digit. *)
Definition parse_sign (s : jsstring) : bool * jsstring :=
  match s with
  | c :: r => if N.eqb c c_minus then (true, r) else (false, s)
  | [] => (false, s)
  end.

Definition parse_int (s : jsstring) : option (list N * jsstring) :=
  let (ip, r) := span_digits s in
  match ip with
  | [] => None
  | d :: ds =>
    if N.eqb d 0 && match ds with [] => false | _ => true end then None
    else Some (ip, r)
  end.

Definition parse_frac (s : jsstring) : option (list N * jsstring) :=
  match s with
  | c :: r =>
    if N.eqb c c_dot then
      let (fp, r') := span_digits r in
      match fp with
      | [] => None
      | _ => Some (fp, r')
      end
    else Some ([], s)
  | [] => Some ([], s)
  end.

Definition parse_exp_sign (s : jsstring) : bool * jsstring :=
  match s with
  | c :: r =>
    if N.eqb c c_minus then (true, r)
    else if N.eqb c c_plus then (false, r)
    else (false, s)
  | [] => (false, s)
  end.

Definition parse_exp (s : jsstring) : option (Z * jsstring) :=
  match s with
  | c :: r =>
    if N.eqb c (ch "e") || N.eqb c (ch "E") then
      let (sg, r1) := parse_exp_sign r in
      let (ep, r2) := span_digits r1 in
      match ep with
      | [] => None
      | _ =>
        let e := Z.of_N (of_digits ep) in
        Some (if sg then (- e)%Z else e, r2)
      end
    else Some (0%Z, s)
  | [] => Some (0%Z, s)
  end.

Definition parse_number (s : jsstring) : option (number * jsstring) :=
  let (ng, s1) := parse_sign s in
  match parse_int s1 with
  | None => None
  | Some (ip, s2) =>
    match parse_frac s2 with
    | None => None
    | Some (fp, s3) =>
      match parse_exp s3 with
      | None => None
      | Some (e, s4) =>
        Some (mkNumber ng (of_digits (ip ++ fp))
                       (e - Z.of_nat (List.length fp)), s4)
      end
    end
  end.

Inductive presult : Type :=
| POk (v : value) (rest : jsstring)
| PErr
| PFuel.

(** Recursive descent on the JSON grammar.  [fuel] bounds the number of
    nested calls; [parse_fuel_enough] below shows that [JSON_parse] never
    runs out. *)
Fixpoint parse_value (fuel : nat) (s : jsstring) {struct fuel} : presult :=
  match fuel with
  | O => PFuel
  | S f =>
    match skip_ws s with
    | [] => PErr
    | c :: r =>
      if N.eqb c c_lbrace then
        match skip_ws r with
        | [] => PErr
        | c' :: r' =>
          if N.eqb c' c_rbrace then POk (VObj []) r'
          else parse_members f [] (c' :: r')
        end
      else if N.eqb c c_lbracket then
        match skip_ws r with
        | [] => PErr
        | c' :: r' =>
          if N.eqb c' c_rbracket then POk (VArr []) r'
          else parse_elements f [] (c' :: r')
        end
      else if N.eqb c c_quote then
        match parse_string r with
        | Some (str, r') => POk (VStr str) r'
        | None => PErr
        end
      else if N.eqb c c_minus || is_digit c then
        match parse_number (c :: r) with
        | Some (n, r') => POk (VNum n) r'
        | None => PErr
        end
      else
        match strip_prefix (u "true") (c :: r) with
        | Some r' => POk (VBool true) r'
        | None =>
          match strip_prefix (u "false") (c :: r) with
          | Some r' => POk (VBool false) r'
          | None =>
            match strip_prefix (u "null") (c :: r) with
            | Some r' => POk VNull r'
            | None => PErr
            end
          end
        end
    end
  end

with parse_elements (fuel : nat) (acc : list value) (s : jsstring)
  {struct fuel} : presult :=
  match fuel with
  | O => PFuel
  | S f =>
    match parse_value f s with
    | POk v r =>
      match skip_ws r with
      | [] => PErr
      | c :: r' =>
        if N.eqb c c_comma then parse_elements f (v :: acc) r'
        else if N.eqb c c_rbracket then POk (VArr (rev (v :: acc))) r'
        else PErr
      end
    | PErr => PErr
    | PFuel => PFuel
    end
  end

with parse_members (fuel : nat) (acc : list (jsstring * value)) (s : jsstring)
  {struct fuel} : presult :=
  match fuel with
  | O => PFuel
  | S f =>
    match skip_ws s with
    | [] => PErr
    | c :: r =>
      if N.eqb c c_quote then
        match parse_string r with
        | None => PErr
        | Some (k, r1) =>
          match skip_ws r1 with
          | [] => PErr
          | c1 :: r2 =>
            if N.eqb c1 c_colon then
              match parse_value f r2 with
              | POk v r3 =>
                match skip_ws r3 with
                | [] => PErr
                | c3 :: r4 =>
                  if N.eqb c3 c_comma then parse_members f (obj_set k v acc) r4
                  else if N.eqb c3 c_rbrace then POk (VObj (obj_set k v acc)) r4
                  else PErr
                end
              | PErr => PErr
              | PFuel => PFuel
              end
            else PErr
          end
        end
      else PErr
    end
  end.

Definition parse_fuel (s : jsstring) : nat := 2 * List.length s + 1.

(** [JSON.parse(text)]: one value, surrounded by optional white space;
    anything else is a SyntaxError. *)
Definition JSON_parse (s : jsstring) : completion value :=
  match parse_value (parse_fuel s) s with
  | POk v r =>
    match skip_ws r with
    | [] => Return v
    | _ :: _ => Throw SyntaxError
    end
  | PErr | PFuel => Throw SyntaxError
  end.

(** ** String operations used by the reply normalizer *)

(** Canonicalisation under the [i] flag, as far as the ASCII patterns here
    can observe it: a code unit outside ASCII never canonicalises to an ASCII
    one, so only the ASCII letters fold. *)
Definition canonicalize (c : N) : N :=
  if N.leb 97 c && N.leb c 122 then (c - 32)%N else c.

Fixpoint strip_prefix_ci (p s : jsstring) : option jsstring :=
  match p with
  | [] => Some s
  | x :: p' =>
    match s with
    | y :: s' =>
      if N.eqb (canonicalize x) (canonicalize y) then strip_prefix_ci p' s'
      else None
    | [] => None
    end
  end.

(** The lazy group [([\s\S]*?)] followed by the literal [close]: the
    shortest run of code units after which [close] occurs. *)
Fixpoint lazy_until (close s : jsstring) : option jsstring :=
  match strip_prefix_ci close s with
  | Some _ => Some []
  | None =>
    match s with
    | [] => None
    | c :: r =>
      match lazy_until close r with
      | Some cap => Some (c :: cap)
      | None => None
      end
    end
  end.

(** [s.match(/open([\s\S]*?)close/i)]: the start positions are tried from
    left to right; the result is capture group 1 of the first match. *)
Fixpoint regex_match (open close s : jsstring) : option jsstring :=
  match
    match strip_prefix_ci open s with
    | Some r => lazy_until close r
    | None => None
    end
  with
  | Some cap => Some cap
  | None =>
    match s with
    | [] => None
    | _ :: r => regex_match open close r
    end
  end.

Definition fence : jsstring := [c_backtick; c_backtick; c_backtick].
Definition fence_json : jsstring := fence ++ u "json".

Fixpoint indexOf (c : N) (s : jsstring) : Z :=
  match s with
  | [] => -1
  | x :: r =>
    if N.eqb x c then 0
    else let i := indexOf c r in if Z.eqb i (-1) then -1 else i + 1
  end%Z.

Fixpoint lastIndexOf (c : N) (s : jsstring) : Z :=
  match s with
  | [] => -1
  | x :: r =>
    let i := lastIndexOf c r in
    if Z.eqb i (-1) then (if N.eqb x c then 0 else -1) else i + 1
  end%Z.

(** [s.slice(a, b)]: negative indices count from the end, both are clamped
    to the string. *)
Definition slice (s : jsstring) (a b : Z) : jsstring :=
  let len := Z.of_nat (List.length s) in
  let from := if Z.ltb a 0 then Z.max (len + a) 0 else Z.min a len in
  let to := if Z.ltb b 0 then Z.max (len + b) 0 else Z.min b len in
  firstn (Z.to_nat (to - from)) (skipn (Z.to_nat from) s).

(** ** A small monad for code that may throw *)

Definition bind {A B : Type} (c : completion A) (k : A -> completion B)
  : completion B :=
  match c with
  | Return a => k a
  | Throw e => Throw e
  end.

Definition try_catch {A : Type} (c : completion A) (h : exn -> completion A)
  : completion A :=
  match c with
  | Return a => Return a
  | Throw e => h e
  end.

Declare Scope completion_scope.
Delimit Scope completion_scope with completion.
Notation "x <- c ;; k" := (bind c (fun x => k))
  (at level 61, c at next level, right associativity) : completion_scope.

(** ** parseModelReplyToJson *)

Definition tryParse (text : jsstring) : completion value :=
  try_catch (JSON_parse text) (fun _ => Return VNull).

(** The object literal [{ raw: reply }]. *)
Definition sentinel (reply : value) : value := VObj [(u "raw", reply)].

Definition is_string (v : value) : bool :=
  match v with
  | VStr _ => true
  | _ => false
  end.

(** The text searched for braces: capture group 1 of the json-tagged fence,
    else of any fence, else the reply itself. *)
Definition fence_strip (text : jsstring) : jsstring :=
  let codeBlockMatch :=
    match regex_match fence_json fence text with
    | Some cap => Some cap
    | None => regex_match fence fence text
    end in
  match codeBlockMatch with
  | Some cap => cap
  | None => text
  end.

Definition parseModelReplyToJson (reply : value) : completion value :=
  (if truthy reply && typeof_object reply then Return reply
  else if negb (truthy reply) || negb (is_string reply) then
    Return (sentinel reply)
  else
    match reply with
    | VStr s =>
      parsed <- tryParse s ;;
      if truthy parsed then Return parsed
      else
        let text := fence_strip s in
        let firstBrace := indexOf c_lbrace text in
        let lastBrace := lastIndexOf c_rbrace text in
        if negb (Z.eqb firstBrace (-1)) && negb (Z.eqb lastBrace (-1))
           && Z.gtb lastBrace firstBrace
        then
          let jsonSlice := slice text firstBrace (lastBrace + 1) in
          parsed <- tryParse jsonSlice ;;
          if truthy parsed then Return parsed
          else Return (sentinel reply)
        else Return (sentinel reply)
    | _ => Return (sentinel reply)
    end)%completion.

(** ** The environment of the main process

    Files, the two document decoders, the llama binding, the chat session,
    the windows and the open-file dialog are outside the program.  Each is an
    oracle that may answer differently on every call: it is given the effects
    performed so far. *)

Definition path := jsstring.
Definition buffer := list N.
Definition handle := N.

(** One turn of the chat history: a prompt and the reply to it. *)
Definition turn := (jsstring * jsstring)%type.

Inductive event : Type :=
| EvReadFile (p : path)
| EvPdf (b : buffer)
| EvMammoth (b : buffer)
| EvImportLlama
| EvExistsSync (p : path)
| EvMkdirSync (p : path)
| EvGetLlama
| EvLoadModel (modelPath : path)
| EvCreateContext (model : handle)
| EvNewSession (context : handle)
| EvResetChatHistory
| EvPrompt (history : list turn) (prompt : jsstring)
| EvGetAllWindows
| EvSend (window : N) (channel : jsstring) (payload : value)
| EvShowOpenDialog
| EvConsoleLog
| EvConsoleError.

Record World := {
  readFile : list event -> path -> completion buffer;
  (** [data.text] of [pdf(buffer)]; [None] is a missing text. *)
  pdf : list event -> buffer -> completion (option jsstring);
  (** [result.value] of [mammoth.extractRawText({ buffer })]. *)
  extractRawText : list event -> buffer -> completion (option jsstring);
  extname : path -> jsstring;
  join : path -> jsstring -> path;
  (** [os.homedir()]: it throws when the home directory cannot be found. *)
  homedir : list event -> completion path;
  existsSync : list event -> path -> bool;
  mkdirSync : list event -> path -> completion unit;
  importLlama : list event -> completion unit;
  getLlama : list event -> completion unit;
  loadModel : list event -> path -> completion handle;
  createContext : list event -> handle -> completion handle;
  (** [new LlamaChatSession({ contextSequence: context.getSequence() })]. *)
  newSession : list event -> handle -> completion handle;
  (** [chatSession.prompt(prompt)], given the history of the session. *)
  prompt_reply : list event -> list turn -> jsstring -> completion jsstring;
  getAllWindows : list event -> list N;
  (** [canceled] and [filePaths] of the dialog's answer. *)
  showOpenDialog : list event -> completion (bool * option (list path))
}.

(** The module-level variables, the history held by the chat session, and
    the effects performed so far, oldest first. *)
Record state := mkState {
  llamaModel : option handle;
  llamaContext : option handle;
  chatSession : option handle;
  history : list turn;
  trace : list event
}.

Definition M (A : Type) : Type := state -> completion A * state.

Definition ret {A : Type} (a : A) : M A := fun s => (Return a, s).

Definition throw {A : Type} (e : exn) : M A := fun s => (Throw e, s).

Definition bindM {A B : Type} (c : M A) (k : A -> M B) : M B :=
  fun s =>
    match c s with
    | (Return a, s') => k a s'
    | (Throw e, s') => (Throw e, s')
    end.

Definition try_catchM {A : Type} (c : M A) (h : exn -> M A) : M A :=
  fun s =>
    match c s with
    | (Return a, s') => (Return a, s')
    | (Throw e, s') => h e s'
    end.

Definition log (e : event) (s : state) : state :=
  mkState (llamaModel s) (llamaContext s) (chatSession s) (history s)
          (trace s ++ [e]).

(** A call to the environment: the answer depends on the effects so far,
    and the call is recorded. *)
Definition call {A : Type} (f : list event -> completion A) (e : event) : M A :=
  fun s => (f (trace s), log e s).

Definition emit (e : event) : M unit := fun s => (Return tt, log e s).

(** A query of the environment that is not recorded. *)
Definition ask {A : Type} (f : list event -> completion A) : M A :=
  fun s => (f (trace s), s).

Definition lift {A : Type} (c : completion A) : M A := fun s => (c, s).

Declare Scope run_scope.
Delimit Scope run_scope with run.
Notation "x <- c ;; k" := (bindM c (fun x => k))
  (at level 61, c at next level, right associativity) : run_scope.
Notation "c ;;; k" := (bindM c (fun _ => k))
  (at level 61, right associativity) : run_scope.

(** [String.prototype.toLowerCase], as far as a comparison with an ASCII
    literal can observe it: the ASCII capitals, and the two code units outside
    ASCII whose lower case contains an ASCII letter (KELVIN SIGN and LATIN
    CAPITAL LETTER I WITH DOT ABOVE).  Every other code unit is kept: its
    lower case is not ASCII either. *)
Definition lower_unit (c : N) : jsstring :=
  if N.leb 65 c && N.leb c 90 then [(c + 32)%N]
  else if N.eqb c 8490 then [107%N]
  else if N.eqb c 304 then [105%N; 775%N]
  else [c].

Definition toLowerCase (s : jsstring) : jsstring := flat_map lower_unit s.

(** [x || ''] on a string that may be missing. *)
Definition or_empty (x : option jsstring) : jsstring :=
  match x with
  | Some (c :: r) => c :: r
  | _ => []
  end.

Section Program.

Variable w : World.

Local Open Scope run_scope.

(** *** extractTextFromResumeFile *)

Definition extractTextFromResumeFile (filePath : path) : M jsstring :=
  buf <- call (fun t => readFile w t filePath) (EvReadFile filePath) ;;
  let extension := toLowerCase (extname w filePath) in
  if str_eqb extension (u ".pdf") then
    text <- call (fun t => pdf w t buf) (EvPdf buf) ;;
    ret (or_empty text)
  else if str_eqb extension (u ".docx") then
    v <- call (fun t => extractRawText w t buf) (EvMammoth buf) ;;
    ret (or_empty v)
  else ret [].

(** *** The model session *)

(** [os.homedir()] is called before the [try]: what it throws is not
    caught here. *)
Definition ensureUserModelDir : M path :=
  baseDir <- ask (homedir w) ;;
  let modelDir := join w baseDir (u "jianli-jiexi-models") in
  try_catchM
    (ex <- call (fun t => Return (existsSync w t modelDir)) (EvExistsSync modelDir) ;;
     if negb ex
     then call (fun t => mkdirSync w t modelDir) (EvMkdirSync modelDir)
     else ret tt)
    (fun _ => emit EvConsoleError) ;;;
  ret modelDir.

Definition resolveModelPath : M path :=
  userModelDir <- ensureUserModelDir ;;
  let userModelPath := join w userModelDir (u "Qwen3-4B-IQ4_NL.gguf") in
  ex <- call (fun t => Return (existsSync w t userModelPath))
             (EvExistsSync userModelPath) ;;
  if negb ex then throw ModelFileMissing else ret userModelPath.

(** [llamaModel && llamaContext && chatSession] *)
Definition ready (s : state) : bool :=
  match llamaModel s, llamaContext s, chatSession s with
  | Some _, Some _, Some _ => true
  | _, _, _ => false
  end.

Definition set_llamaModel (h : handle) : M unit :=
  fun s => (Return tt,
            mkState (Some h) (llamaContext s) (chatSession s) (history s) (trace s)).

Definition set_llamaContext (h : handle) : M unit :=
  fun s => (Return tt,
            mkState (llamaModel s) (Some h) (chatSession s) (history s) (trace s)).

(** A new session starts with an empty history. *)
Definition set_chatSession (h : handle) : M unit :=
  fun s => (Return tt,
            mkState (llamaModel s) (llamaContext s) (Some h) [] (trace s)).

Definition initModel : M unit :=
  fun s =>
    if ready s then (Return tt, s)
    else
      (call (importLlama w) EvImportLlama ;;;
       modelPath <- resolveModelPath ;;
       call (getLlama w) EvGetLlama ;;;
       m <- call (fun t => loadModel w t modelPath) (EvLoadModel modelPath) ;;
       set_llamaModel m ;;;
       c <- call (fun t => createContext w t m) (EvCreateContext m) ;;
       set_llamaContext c ;;;
       cs <- call (fun t => newSession w t c) (EvNewSession c) ;;
       set_chatSession cs) s.

(** [chatSession.resetChatHistory()]; a method call on [null] is a
    TypeError. *)
Definition resetChatHistory : M unit :=
  fun s =>
    match chatSession s with
    | None => (Throw TypeError, s)
    | Some _ =>
      (Return tt,
       mkState (llamaModel s) (llamaContext s) (chatSession s) []
               (trace s ++ [EvResetChatHistory]))
    end.

(** [chatSession.prompt(prompt)]: the turn is added to the history when
    the model has answered. *)
Definition chat_prompt (prompt : jsstring) : M jsstring :=
  fun s =>
    match chatSession s with
    | None => (Throw TypeError, s)
    | Some _ =>
      let s1 := log (EvPrompt (history s) prompt) s in
      match prompt_reply w (trace s) (history s) prompt with
      | Return reply =>
        (Return reply,
         mkState (llamaModel s1) (llamaContext s1) (chatSession s1)
                 (history s ++ [(prompt, reply)]) (trace s1))
      | Throw e => (Throw e, s1)
      end
    end.

(** The template literal of the prompt up to [${text}], as code units. *)
Definition prompt_head : jsstring :=
  [20320; 26159; 19968; 20010; 20013; 25991; 31616; 21382; 35299; 26512;
   21161; 25163; 12290; 35831; 20174; 19979; 38754; 30340; 31616; 21382;
   25991; 26412; 20013; 25552; 21462; 20505; 36873; 20154; 30340; 22995;
   21517; 12289; 24615; 21035; 12289; 24180; 40836; 12289; 26368; 39640;
   23398; 21382; 12289; 25163; 26426; 21495; 30721; 21644; 37038; 31665;
   22320; 22336; 65292; 24182; 20005; 26684; 25353; 29031; 20197; 19979; 32;
   74; 83; 79; 78; 32; 26684; 24335; 36820; 22238; 65306; 10; 10; 123; 10;
   32; 32; 34; 110; 97; 109; 101; 34; 58; 32; 34; 22995; 21517; 25110; 110;
   117; 108; 108; 34; 44; 10; 32; 32; 34; 103; 101; 110; 100; 101; 114; 34;
   58; 32; 34; 24615; 21035; 23383; 31526; 20018; 65288; 34; 30007; 34;
   12289; 34; 22899; 34; 32; 25110; 32; 110; 117; 108; 108; 65289; 34; 44;
   10; 32; 32; 34; 97; 103; 101; 34; 58; 32; 24180; 40836; 25968; 23383;
   25110; 110; 117; 108; 108; 44; 10; 32; 32; 34; 101; 100; 117; 99; 97; 116;
   105; 111; 110; 34; 58; 32; 34; 26368; 39640; 23398; 21382; 23383; 31526;
   20018; 65288; 22914; 34; 22823; 19987; 34; 12289; 34; 26412; 31185; 34;
   12289; 34; 30805; 22763; 34; 65292; 25110; 32; 110; 117; 108; 108; 65289;
   34; 44; 10; 32; 32; 34; 112; 104; 111; 110; 101; 34; 58; 32; 34; 25163;
   26426; 21495; 23383; 31526; 20018; 25110; 110; 117; 108; 108; 34; 44; 10;
   32; 32; 34; 101; 109; 97; 105; 108; 34; 58; 32; 34; 37038; 31665; 23383;
   31526; 20018; 25110; 110; 117; 108; 108; 34; 10; 125; 10; 10; 19981;
   35201; 36820; 22238; 20219; 20309; 35299; 37322; 24615; 25991; 23383;
   65292; 21482; 36820; 22238; 32; 74; 83; 79; 78; 44; 37325; 35201; 22768;
   26126; 65292; 22914; 26524; 25214; 19981; 21040; 23545; 24212; 30340;
   20869; 23481; 23601; 22635; 20837; 110; 117; 108; 108; 44; 24180; 40836;
   24517; 39035; 26377; 26126; 30830; 30340; 120; 120; 23681; 25110; 32773;
   24180; 40836; 65306; 120; 120; 120; 23681; 65292; 25165; 33021; 22635;
   20837; 65292; 19981; 35201; 32771; 34385; 20986; 29983; 26085; 26399;
   65292; 24615; 21035; 24517; 39035; 26377; 26126; 30830; 25991; 23383;
   25165; 33021; 20889; 20837; 65292; 19981; 33021; 38752; 25512; 26029;
   12290; 10; 10; 45; 45; 45; 32; 31616; 21382; 25991; 26412; 24320; 22987;
   32; 45; 45; 45; 10]%N.

(** The template literal of the prompt after [${text}]. *)
Definition prompt_tail : jsstring :=
  [10; 45; 45; 45; 32; 31616; 21382; 25991; 26412; 32467; 26463; 32; 45; 45;
   45]%N.

(** *** The 'parse-resume-pdf' handler *)

Definition buildPrompt (text : jsstring) : jsstring :=
  prompt_head ++ text ++ prompt_tail.

Definition channel : jsstring := u "resume-item-parsed".

(** The object literal [{ filePath, result: parsed }]. *)
Definition item (filePath : path) (parsed : value) : value :=
  VObj [(u "filePath", VStr filePath); (u "result", parsed)].

(** The body of the [for] loop. *)
Definition process_file (filePath : path) : M unit :=
  text <- extractTextFromResumeFile filePath ;;
  let prompt := buildPrompt text in
  resetChatHistory ;;;
  reply <- chat_prompt prompt ;;
  parsed <- lift (parseModelReplyToJson (VStr reply)) ;;
  emit EvConsoleLog ;;;
  windows <- call (fun t => Return (getAllWindows w t)) EvGetAllWindows ;;
  match windows with
  | w0 :: _ => emit (EvSend w0 channel (item filePath parsed))
  | [] => ret tt
  end.

Fixpoint for_of (filePaths : list path) (body : path -> M unit) : M unit :=
  match filePaths with
  | [] => ret tt
  | p :: rest => body p ;;; for_of rest body
  end.

(** The object literal [{ canceled: b }]. *)
Definition canceled_result (b : bool) : value := VObj [(u "canceled", VBool b)].

(** What follows the choice of [filePaths]. *)
Definition run_batch (filePaths : list path) : M value :=
  (fun s => if negb (ready s) then initModel s else (Return tt, s)) ;;;
  for_of filePaths process_file ;;;
  ret (canceled_result false).

(** [filePathsFromRenderer] is [Some l] when it is an array (of paths). *)
Definition parse_resume_pdf (filePathsFromRenderer : option (list path)) : M value :=
  try_catchM
    (match filePathsFromRenderer with
     | Some (p :: rest) => run_batch (p :: rest)
     | _ =>
       d <- call (showOpenDialog w) EvShowOpenDialog ;;
       match d with
       | (false, Some (p :: rest)) => run_batch (p :: rest)
       | _ => ret (canceled_result true)
       end
     end)
    (fun err => emit EvConsoleError ;;; throw err).

End Program.

(** ** A concrete environment

    Used to run the program on explicit inputs. *)

(** The scan of Node's [path.posix.extname]: the path is read from its last
    code unit to its first, until the separator that starts the last
    component. *)
Record ext_scan := mkScan {
  startDot : Z;
  startPart : Z;
  scan_end : Z;
  matchedSlash : bool;
  preDotState : Z;
  stopped : bool
}.

Definition ext_step (st : ext_scan) (i : Z) (code : N) : ext_scan :=
  if stopped st then st
  else if N.eqb code c_slash then
    if negb (matchedSlash st)
    then mkScan (startDot st) (i + 1) (scan_end st) (matchedSlash st)
                (preDotState st) true
    else st
  else
    let st1 :=
      if Z.eqb (scan_end st) (-1)
      then mkScan (startDot st) (startPart st) (i + 1) false (preDotState st) false
      else st in
    if N.eqb code c_dot then
      if Z.eqb (startDot st1) (-1)
      then mkScan i (startPart st1) (scan_end st1) (matchedSlash st1)
                  (preDotState st1) false
      else mkScan (startDot st1) (startPart st1) (scan_end st1)
                  (matchedSlash st1) 1 false
    else if negb (Z.eqb (startDot st1) (-1))
    then mkScan (startDot st1) (startPart st1) (scan_end st1)
                (matchedSlash st1) (-1) false
    else st1.

Fixpoint ext_scan_from (i : Z) (s : jsstring) : ext_scan :=
  match s with
  | [] => mkScan (-1) 0 (-1) true 0 false
  | c :: r => ext_step (ext_scan_from (i + 1) r) i c
  end.

Definition posix_extname (p : path) : jsstring :=
  let st := ext_scan_from 0 p in
  if Z.eqb (startDot st) (-1)
     || Z.eqb (scan_end st) (-1)
     || Z.eqb (preDotState st) 0
     || (Z.eqb (preDotState st) 1
         && Z.eqb (startDot st) (scan_end st - 1)
         && Z.eqb (startDot st) (startPart st + 1))
  then []
  else slice p (startDot st) (scan_end st).

Definition posix_join (a b : jsstring) : jsstring := a ++ c_slash :: b.

Fixpoint mem_path (p : path) (l : list path) : bool :=
  match l with
  | [] => false
  | q :: r => str_eqb p q || mem_path p r
  end.

(** A machine on which the model file is present and every library call
    succeeds; the files listed in [missing] cannot be read, every other file
    holds its own name as text, the windows are [windows] and the model
    answers [reply] to every prompt. *)
Definition demo_world (missing : list path) (windows : list N) (reply : jsstring)
  : World :=
  {| readFile := fun _ p => if mem_path p missing then Throw (External 2) else Return p;
     pdf := fun _ b => Return (Some b);
     extractRawText := fun _ b => Return (Some b);
     extname := posix_extname;
     join := posix_join;
     homedir := fun _ => Return (u "/home/user");
     existsSync := fun _ _ => true;
     mkdirSync := fun _ _ => Return tt;
     importLlama := fun _ => Return tt;
     getLlama := fun _ => Return tt;
     loadModel := fun _ _ => Return 1%N;
     createContext := fun _ _ => Return 2%N;
     newSession := fun _ _ => Return 3%N;
     prompt_reply := fun _ _ _ => Return reply;
     getAllWindows := fun _ => windows;
     showOpenDialog := fun _ => Return (true, None) |}.

(** The state of a freshly started process. *)
Definition initial_state : state := mkState None None None [] [].

(** ** Observations on replies and traces *)

(** A decoding attempt succeeds when the text parses to a truthy value. *)
Definition accepted (text : jsstring) : option value :=
  match JSON_parse text with
  | Return v => if truthy v then Some v else None
  | Throw _ => None
  end.

(** The span from the first opening brace to the last closing brace. *)
Definition brace_span (text : jsstring) : option jsstring :=
  let firstBrace := indexOf c_lbrace text in
  let lastBrace := lastIndexOf c_rbrace text in
  if negb (Z.eqb firstBrace (-1)) && negb (Z.eqb lastBrace (-1))
     && Z.gtb lastBrace firstBrace
  then Some (slice text firstBrace (lastBrace + 1))
  else None.

(** The contents of a fenced block, a json-tagged one first. *)
Definition fenced_block (text : jsstring) : option jsstring :=
  match regex_match fence_json fence text with
  | Some cap => Some cap
  | None => regex_match fence fence text
  end.

Definition strategy := jsstring -> option value.

(** First match wins; the raw-reply sentinel when no strategy succeeds. *)
Fixpoint first_match (l : list strategy) (reply : jsstring) : value :=
  match l with
  | [] => sentinel (VStr reply)
  | st :: rest =>
    match st reply with
    | Some v => v
    | None => first_match rest reply
    end
  end.

Definition direct_parse : strategy := accepted.

Definition fenced_parse : strategy :=
  fun reply =>
    match fenced_block reply with
    | Some body => accepted body
    | None => None
    end.

Definition brace_span_parse : strategy :=
  fun reply =>
    match brace_span (fence_strip reply) with
    | Some jsonSlice => accepted jsonSlice
    | None => None
    end.

(** The chain in the words of the specification: direct parse, then the
    contents of a fenced block parsed on their own, then the brace span of
    the (possibly fence-stripped) text, then the sentinel. *)
Definition normalize_as_specified : jsstring -> value :=
  first_match [direct_parse; fenced_parse; brace_span_parse].

(** The chain the function implements. *)
Definition normalize_chain : jsstring -> value :=
  first_match [direct_parse; brace_span_parse].

Definition six_fields : list jsstring :=
  [u "name"; u "gender"; u "age"; u "education"; u "phone"; u "email"].

Definition string_or_null (v : option value) : bool :=
  match v with
  | Some (VStr _) | Some VNull => true
  | _ => false
  end.

Definition number_or_null (v : option value) : bool :=
  match v with
  | Some (VNum _) | Some VNull => true
  | _ => false
  end.

(** An object with the six fields of the prompt's schema. *)
Definition resume_record (v : value) : bool :=
  match v with
  | VObj m =>
    string_or_null (obj_get (u "name") m)
    && string_or_null (obj_get (u "gender") m)
    && number_or_null (obj_get (u "age") m)
    && string_or_null (obj_get (u "education") m)
    && string_or_null (obj_get (u "phone") m)
    && string_or_null (obj_get (u "email") m)
  | _ => false
  end.

(** The effects performed between two states. *)
Definition since (s s' : state) : list event :=
  skipn (List.length (trace s)) (trace s').

(** The document identity carried by each result event, in order. *)
Fixpoint emitted (tr : list event) : list (option path) :=
  match tr with
  | [] => []
  | EvSend _ _ (VObj m) :: r =>
    match obj_get (u "filePath") m with
    | Some (VStr p) => Some p :: emitted r
    | _ => None :: emitted r
    end
  | EvSend _ _ _ :: r => None :: emitted r
  | _ :: r => emitted r
  end.

Fixpoint loads (tr : list event) : nat :=
  match tr with
  | [] => 0
  | EvLoadModel _ :: r => S (loads r)
  | _ :: r => loads r
  end.

Fixpoint prompts (tr : list event) : list jsstring :=
  match tr with
  | [] => []
  | EvPrompt _ p :: r => p :: prompts r
  | _ :: r => prompts r
  end.

(** Every prompt in the trace is submitted on an empty history and directly
    follows a reset; [after_reset] tells whether the event before the trace
    was a reset. *)
Fixpoint fresh_from (after_reset : bool) (tr : list event) : bool :=
  match tr with
  | [] => true
  | EvPrompt h _ :: r =>
    after_reset && match h with [] => true | _ => false end && fresh_from false r
  | EvResetChatHistory :: r => fresh_from true r
  | _ :: r => fresh_from false r
  end.

(** Equality of two strings up to the case of their ASCII letters. *)
Fixpoint ci_eqb (a b : jsstring) : bool :=
  match a, b with
  | [], [] => true
  | x :: a', y :: b' => N.eqb (canonicalize x) (canonicalize y) && ci_eqb a' b'
  | _, _ => false
  end.

(** An ASCII literal that [toLowerCase] can produce from ASCII input only:
    no capital, and neither of the letters k and i. *)
Definition lower_literal (lit : jsstring) : bool :=
  forallb (fun x => N.ltb x 128 && negb (N.leb 65 x && N.leb x 90)
                    && negb (N.eqb x 107) && negb (N.eqb x 105)) lit.

Definition map_completion {A B : Type} (f : A -> B) (c : completion A)
  : completion B :=
  match c with
  | Return a => Return (f a)
  | Throw e => Throw e
  end.

(** ** Predicates on what a parser consumes *)

(** [consumed P s r]: [r] is what is left of [s] after a run of code units
    that all satisfy [P]. *)
Definition consumed (P : N -> bool) (s r : jsstring) : Prop :=
  exists pre, s = pre ++ r /\ forallb P pre = true.

(** The code units a number literal is made of. *)
Definition num_char (c : N) : bool :=
  is_digit c || N.eqb c c_minus || N.eqb c c_plus || N.eqb c c_dot
  || N.eqb c (ch "e") || N.eqb c (ch "E").

(** A code unit other than the two braces. *)
Definition plain (c : N) : bool :=
  negb (N.eqb c c_lbrace || N.eqb c c_rbrace).

(** The code units of an ASCII literal in which the double quotes of a JSON
    text are written as apostrophes. *)
Definition uq (s : string) : jsstring :=
  map (fun c => if N.eqb c 39 then c_quote else c) (u s).

(** ** Property access, [||], [??] and string conversions *)

(** [v.k], for the property names the program reads ([result], [filePath],
    [canceled], [filePaths] and the six fields): none of them is defined on
    the prototype of an object, an array or a primitive, so the read is
    [undefined] unless [v] is an object with that own property; reading a
    property of [null] or [undefined] throws. *)
Definition get_prop (v : value) (k : jsstring) : completion value :=
  match v with
  | VUndefined | VNull => Throw TypeError
  | VObj m =>
    Return match obj_get k m with
           | Some x => x
           | None => VUndefined
           end
  | _ => Return VUndefined
  end.

(** [v || d] *)
Definition or_else (v d : value) : value := if truthy v then v else d.

(** [v ?? d] *)
Definition coalesce (v d : value) : value :=
  match v with
  | VUndefined | VNull => d
  | _ => v
  end.

Fixpoint uint_codes (d : Decimal.uint) : jsstring :=
  match d with
  | Decimal.Nil => []
  | Decimal.D0 d => 48%N :: uint_codes d
  | Decimal.D1 d => 49%N :: uint_codes d
  | Decimal.D2 d => 50%N :: uint_codes d
  | Decimal.D3 d => 51%N :: uint_codes d
  | Decimal.D4 d => 52%N :: uint_codes d
  | Decimal.D5 d => 53%N :: uint_codes d
  | Decimal.D6 d => 54%N :: uint_codes d
  | Decimal.D7 d => 55%N :: uint_codes d
  | Decimal.D8 d => 56%N :: uint_codes d
  | Decimal.D9 d => 57%N :: uint_codes d
  end.

(** The text of a non-negative integer in a template literal. *)
Definition decimal (n : N) : jsstring := uint_codes (N.to_uint n).

(** [s.split(sep)] for a separator of one code unit. *)
Fixpoint split (sep : N) (s : jsstring) : list jsstring :=
  match s with
  | [] => [[]]
  | c :: r =>
    if N.eqb c sep then [] :: split sep r
    else
      match split sep r with
      | h :: t => (c :: h) :: t
      | [] => [[c]]
      end
  end.

(** [a.pop()]: the last element, [undefined] on an empty array. *)
Fixpoint pop (a : list jsstring) : option jsstring :=
  match a with
  | [] => None
  | [x] => Some x
  | _ :: r => pop r
  end.

(** [s.split('\\').pop()] inside a template literal. *)
Definition after_last_backslash (s : jsstring) : jsstring :=
  match pop (split c_backslash s) with
  | Some x => x
  | None => u "undefined"
  end.

(** ** A state monad over any state, for the other handlers *)

Definition ST (S A : Type) : Type := S -> completion A * S.

Definition retS {S A : Type} (a : A) : ST S A := fun s => (Return a, s).

Definition throwS {S A : Type} (e : exn) : ST S A := fun s => (Throw e, s).

Definition bindS {S A B : Type} (c : ST S A) (k : A -> ST S B) : ST S B :=
  fun s =>
    match c s with
    | (Return a, s') => k a s'
    | (Throw e, s') => (Throw e, s')
    end.

Definition try_catchS {S A : Type} (c : ST S A) (h : exn -> ST S A) : ST S A :=
  fun s =>
    match c s with
    | (Return a, s') => (Return a, s')
    | (Throw e, s') => h e s'
    end.

(** A call to the environment, recorded in the trace. *)
Definition callS {E A : Type} (f : list E -> completion A) (e : E)
  : ST (list E) A :=
  fun t => (f t, t ++ [e]).

Definition emitS {E : Type} (e : E) : ST (list E) unit :=
  fun t => (Return tt, t ++ [e]).

Definition liftS {S A : Type} (c : completion A) : ST S A := fun s => (c, s).

Declare Scope st_scope.
Delimit Scope st_scope with st.
Notation "x <- c ;; k" := (bindS c (fun x => k))
  (at level 61, c at next level, right associativity) : st_scope.
Notation "c ;;; k" := (bindS c (fun _ => k))
  (at level 61, right associativity) : st_scope.

(** ** The 'export-resume-excel' handler *)

Module Excel.

(** The object given to [worksheet.addRow]. *)
Record row := mkRow {
  fileName : jsstring;
  name : value;
  gender : value;
  age : value;
  education : value;
  phone : value;
  email : value
}.

Record column := mkColumn { header : jsstring; key : jsstring; width : N }.

Record worksheet := mkSheet {
  title : jsstring;
  columns : list column;
  rows : list row
}.

End Excel.

Inductive export_event : Type :=
| XShowSaveDialog
| XRequireExcelJS
| XWriteFile (filePath : jsstring) (sheet : Excel.worksheet)
| XConsoleError.

Record ExportWorld := {
  (** [canceled] and [filePath] of the save dialog's answer. *)
  showSaveDialog : list export_event -> completion (bool * option jsstring);
  requireExcelJS : list export_event -> completion unit;
  (** [workbook.xlsx.writeFile(filePath)] *)
  writeFile : list export_event -> jsstring -> Excel.worksheet -> completion unit
}.

Definition msg_no_data : jsstring :=
  [27809; 26377; 21487; 23548; 20986; 30340; 25968; 25454]%N.

Definition sheet_title : jsstring :=
  [31616; 21382; 35299; 26512; 32467; 26524]%N.

Definition sheet_columns : list Excel.column :=
  [Excel.mkColumn [25991; 20214; 21517]%N (u "fileName") 40;
   Excel.mkColumn [22995; 21517]%N (u "name") 15;
   Excel.mkColumn [24615; 21035]%N (u "gender") 10;
   Excel.mkColumn [24180; 40836]%N (u "age") 10;
   Excel.mkColumn [23398; 21382]%N (u "education") 15;
   Excel.mkColumn [25163; 26426]%N (u "phone") 20;
   Excel.mkColumn [37038; 31665]%N (u "email") 30].

(** [{ success: false, message: '...' }] *)
Definition export_no_data : value :=
  VObj [(u "success", VBool false); (u "message", VStr msg_no_data)].

(** [{ canceled: false, success: true, filePath }] *)
Definition export_done (filePath : jsstring) : value :=
  VObj [(u "canceled", VBool false); (u "success", VBool true);
        (u "filePath", VStr filePath)].

Section ExportHandler.

(** [String(v)] for a value that is not a string.  It may throw: on an
    object whose [toString] property is not a function, for one, no primitive
    is found and the conversion is a TypeError. *)
Variable toString : value -> completion jsstring.

Variable xw : ExportWorld.

Definition String_of (v : value) : completion jsstring :=
  match v with
  | VStr s => Return s
  | _ => toString v
  end.

Local Open Scope completion_scope.

(** [item.filePath ? String(item.filePath).split('\\').pop() : ''] *)
Definition base_name (fp : value) : completion jsstring :=
  if truthy fp
  then s <- String_of fp ;; Return (after_last_backslash s)
  else Return [].

(** The callback of [items.forEach]: the row added for [item] at
    [index]. *)
Definition export_row (index : nat) (item : value) : completion Excel.row :=
  r <- get_prop item (u "result") ;;
  let result := or_else r (VObj []) in
  fp <- get_prop item (u "filePath") ;;
  base <- base_name fp ;;
  let fileName := decimal (N.of_nat index + 1) ++ u ". " ++ base in
  name <- get_prop result (u "name") ;;
  gender <- get_prop result (u "gender") ;;
  age <- get_prop result (u "age") ;;
  education <- get_prop result (u "education") ;;
  phone <- get_prop result (u "phone") ;;
  email <- get_prop result (u "email") ;;
  Return (Excel.mkRow fileName
            (coalesce name (VStr [])) (coalesce gender (VStr []))
            (coalesce age (VStr [])) (coalesce education (VStr []))
            (coalesce phone (VStr [])) (coalesce email (VStr []))).

Fixpoint forEach_rows (index : nat) (items : list value)
  : completion (list Excel.row) :=
  match items with
  | [] => Return []
  | item :: rest =>
    row <- export_row index item ;;
    rows <- forEach_rows (S index) rest ;;
    Return (row :: rows)
  end.

Local Close Scope completion_scope.
Local Open Scope st_scope.

Definition export_resume_excel (items : value) : ST (list export_event) value :=
  try_catchS
    (match items with
     | VArr (i :: rest) =>
       d <- callS (showSaveDialog xw) XShowSaveDialog ;;
       match d with
       | (false, Some (c :: p)) =>
         callS (requireExcelJS xw) XRequireExcelJS ;;;
         rows <- liftS (forEach_rows 0 (i :: rest)) ;;
         let sheet := Excel.mkSheet sheet_title sheet_columns rows in
         callS (fun t => writeFile xw t (c :: p) sheet) (XWriteFile (c :: p) sheet) ;;;
         retS (export_done (c :: p))
       | _ => retS (canceled_result true)
       end
     | _ => retS export_no_data
     end)
    (fun err => emitS XConsoleError ;;; throwS err).

End ExportHandler.

(** [null] or [undefined]. *)
Definition nullish (v : value) : bool :=
  match v with
  | VUndefined | VNull => true
  | _ => false
  end.

(** The six cells of a row after its file name. *)
Definition cells (r : Excel.row) : list value :=
  [Excel.name r; Excel.gender r; Excel.age r; Excel.education r;
   Excel.phone r; Excel.email r].

(** A machine on which the save dialog returns [out.xlsx] and writing
    succeeds. *)
Definition demo_export_world : ExportWorld :=
  {| showSaveDialog := fun _ => Return (false, Some (u "out.xlsx"));
     requireExcelJS := fun _ => Return tt;
     writeFile := fun _ _ _ => Return tt |}.

(** The files written in a trace, with their sheets. *)
Fixpoint written (t : list export_event) : list (jsstring * Excel.worksheet) :=
  match t with
  | [] => []
  | XWriteFile p sheet :: r => (p, sheet) :: written r
  | _ :: r => written r
  end.

(** ** The 'select-resume-files' handler *)

(** [{ canceled: false, filePaths }] *)
Definition selection (filePaths : list path) : value :=
  VObj [(u "canceled", VBool false); (u "filePaths", VArr (map VStr filePaths))].

Definition select_resume_files (w : World) : M value :=
  bindM (call (showOpenDialog w) EvShowOpenDialog)
        (fun d =>
           match d with
           | (false, Some (p :: rest)) => ret (selection (p :: rest))
           | _ => ret (canceled_result true)
           end).

(** ** The renderer (HelloWorld.vue) *)

(** The rows of the table: [filePath] and [result] of each item. *)
Definition table := list (value * value).

Record rstate := mkRState {
  importing : bool;
  extracting : bool;
  resumeError : jsstring;
  resumeItems : table
}.

Definition msg_too_many : jsstring :=
  [19968; 27425; 26368; 22810; 23548; 20837; 32; 49; 48; 32; 20221; 31616;
   21382; 65292; 35831; 37325; 26032; 36873; 25321; 12290]%N.

Definition msg_import_api : jsstring :=
  [31616; 21382; 23548; 20837; 25509; 21475; 26410; 23601; 32490; 65292;
   35831; 26816; 26597; 20027; 36827; 31243; 21644; 32; 112; 114; 101; 108;
   111; 97; 100; 32; 37197; 32622; 12290]%N.

(** [a.findIndex(f)] *)
Fixpoint findIndex {A : Type} (f : A -> bool) (a : list A) : Z :=
  match a with
  | [] => -1
  | x :: r =>
    if f x then 0
    else let i := findIndex f r in if Z.eqb i (-1) then -1 else i + 1
  end%Z.

(** [t[index].result = res] *)
Fixpoint set_result (index : nat) (res : value) (t : table) : table :=
  match t with
  | [] => []
  | (p, r) :: rest =>
    match index with
    | O => (p, res) :: rest
    | S j => (p, r) :: set_result j res rest
    end
  end.

(** A row with an empty result, as [importResumes] creates it. *)
Definition blank (filePath : value) : value * value := (filePath, VObj []).

Section Renderer.

(** [a === b] on two numbers. *)
Variable number_equal : number -> number -> bool.

(** [e?.message || String(e)] for a caught error. *)
Variable error_text : exn -> jsstring.

(** [a === b].  Two objects or arrays are equal when they are the same
    object: a value that arrives in a message is a fresh copy, so it is
    never the same object as one held in the table. *)
Definition strict_equal (a b : value) : bool :=
  match a, b with
  | VUndefined, VUndefined => true
  | VNull, VNull => true
  | VBool x, VBool y => Bool.eqb x y
  | VNum x, VNum y => number_equal x y
  | VStr x, VStr y => str_eqb x y
  | _, _ => false
  end.

Local Open Scope completion_scope.

(** The listener registered with [onResumeItemParsed]. *)
Definition on_item (item : value) (t : table) : completion table :=
  if truthy item then
    fp <- get_prop item (u "filePath") ;;
    if truthy fp then
      let index := findIndex (fun x => strict_equal (fst x) fp) t in
      r <- get_prop item (u "result") ;;
      if negb (Z.eqb index (-1))
      then Return (set_result (Z.to_nat index) (or_else r (VObj [])) t)
      else Return (t ++ [(fp, or_else r (VObj []))])
    else Return t
  else Return t.

(** The messages of a run delivered to the listener, in order. *)
Fixpoint deliver (items : list value) (t : table) : completion table :=
  match items with
  | [] => Return t
  | item :: rest => t' <- on_item item t ;; deliver rest t'
  end.

(** What [importResumes] does once the answer of [selectResumeFiles] is
    there; [Throw] is a rejected call. *)
Definition import_answer (res : completion value) : completion (jsstring * table) :=
  res <- res ;;
  canceled <- get_prop res (u "canceled") ;;
  if truthy canceled then Return ([], [])
  else
    fps <- get_prop res (u "filePaths") ;;
    let filePaths := match fps with VArr l => l | _ => [] end in
    if Nat.ltb 10 (List.length filePaths) then Return (msg_too_many, [])
    else Return ([], map blank filePaths).

(** [importResumes]; [ipc] is [None] when the preload script has not
    exposed [selectResumeFiles]. *)
Definition importResumes (ipc : option (completion value)) (st : rstate) : rstate :=
  match ipc with
  | None => mkRState (importing st) (extracting st) msg_import_api (resumeItems st)
  | Some res =>
    match import_answer res with
    | Return (err, items) => mkRState false (extracting st) err items
    | Throw e => mkRState false (extracting st) (error_text e) []
    end
  end.

End Renderer.

(** The result shown for the file [p]: that of the first row whose path
    is the string [p]. *)
Fixpoint result_of (p : jsstring) (t : table) : option value :=
  match t with
  | [] => None
  | (VStr q, r) :: rest => if str_eqb q p then Some r else result_of p rest
  | _ :: rest => result_of p rest
  end.

(** No row has a path that an earlier row's path [===]. *)
Fixpoint distinct (number_equal : number -> number -> bool) (t : table) : bool :=
  match t with
  | [] => true
  | (x, _) :: rest =>
    forallb (fun row => negb (strict_equal number_equal x (fst row))) rest
    && distinct number_equal rest
  end.

(** ** More observations on traces *)

(** The session variables are those of [s]. *)
Definition same_session (s s' : state) : Prop :=
  llamaModel s' = llamaModel s /\ llamaContext s' = llamaContext s
  /\ chatSession s' = chatSession s.

(** A payload of the batch [l]: the path of one of its files with a truthy
    result. *)
Definition payload_of (l : list path) (payload : value) : Prop :=
  exists p v, In p l /\ truthy v = true /\ payload = item p v.

(** [{ filePath, result }] for each file and its result. *)
Definition items_of (l : list path) (vs : list value) : list value :=
  map (fun pv => item (fst pv) (snd pv)) (combine l vs).

(** The payloads of the result events, in order. *)
Fixpoint sent (tr : list event) : list value :=
  match tr with
  | [] => []
  | EvSend _ _ payload :: r => payload :: sent r
  | _ :: r => sent r
  end.

(** The files read, in order. *)
Fixpoint reads (tr : list event) : list path :=
  match tr with
  | [] => []
  | EvReadFile p :: r => p :: reads r
  | _ :: r => reads r
  end.

(** * Properties *)

(** ** Strings *)

Lemma str_eqb_eq (a b : jsstring) : str_eqb a b = true <-> a = b.
Proof.
  revert b; induction a as [|x a IH]; intros [|y b]; simpl; split;
    try congruence; try reflexivity.
  - intros H. apply andb_true_iff in H as [Hx Hab].
    apply N.eqb_eq in Hx. apply IH in Hab. congruence.
  - intros H. injection H as -> ->.
    rewrite N.eqb_refl. simpl. apply IH. reflexivity.
Qed.

Lemma skip_ws_split (s : jsstring) :
  exists ws, s = ws ++ skip_ws s /\ forallb is_ws ws = true.
Proof.
  induction s as [|c r [ws [E W]]]; simpl.
  - exists []. auto.
  - destruct (is_ws c) eqn:Hc.
    + exists (c :: ws). simpl. rewrite Hc, W. split; [congruence | reflexivity].
    + exists []. auto.
Qed.

Lemma skip_ws_length (s : jsstring) :
  (List.length (skip_ws s) <= List.length s)%nat.
Proof.
  destruct (skip_ws_split s) as [ws [E _]].
  rewrite E at 2. rewrite length_app. lia.
Qed.

Lemma skip_ws_head (s : jsstring) (c : N) (r : jsstring) :
  skip_ws s = c :: r -> is_ws c = false.
Proof.
  induction s as [|x s IH]; simpl; [discriminate|].
  destruct (is_ws x) eqn:Hx; [exact IH|].
  intros H. injection H as -> _. exact Hx.
Qed.

Lemma strip_prefix_app (p s r : jsstring) :
  strip_prefix p s = Some r -> s = p ++ r.
Proof.
  revert s; induction p as [|x p IH]; intros s; simpl.
  - congruence.
  - destruct s as [|y s]; [discriminate|].
    destruct (N.eqb_spec x y); [|discriminate].
    intros H. apply IH in H. congruence.
Qed.

Lemma strip_prefix_ci_suffix (p s r : jsstring) :
  strip_prefix_ci p s = Some r ->
  exists pre, s = pre ++ r /\ List.length pre = List.length p.
Proof.
  revert s; induction p as [|x p IH]; intros s; simpl.
  - intros H. exists []. split; simpl; congruence.
  - destruct s as [|y s]; [discriminate|].
    destruct (N.eqb (canonicalize x) (canonicalize y)); [|discriminate].
    intros H. apply IH in H as [pre [E L]].
    exists (y :: pre). simpl. split; congruence.
Qed.

Lemma lazy_until_prefix (close s cap : jsstring) :
  lazy_until close s = Some cap -> exists post, s = cap ++ post.
Proof.
  revert cap; induction s as [|c r IH]; intros cap; simpl.
  - destruct (strip_prefix_ci close []); [|discriminate].
    intros H. injection H as <-. exists []. reflexivity.
  - destruct (strip_prefix_ci close (c :: r)).
    + intros H. injection H as <-. exists (c :: r). reflexivity.
    + destruct (lazy_until close r) as [cap'|]; [|discriminate].
      intros H. injection H as <-.
      destruct (IH cap' eq_refl) as [post E].
      exists post. simpl. congruence.
Qed.

(** The captured group is a part of the searched text. *)
Lemma regex_match_part (open close s cap : jsstring) :
  regex_match open close s = Some cap ->
  exists pre post, s = pre ++ cap ++ post.
Proof.
  assert (Here : forall t,
    match strip_prefix_ci open t with
    | Some r => lazy_until close r
    | None => None
    end = Some cap -> exists pre post, t = pre ++ cap ++ post).
  { intros t. destruct (strip_prefix_ci open t) as [r|] eqn:Hp; [|discriminate].
    intros Hl. apply strip_prefix_ci_suffix in Hp as [pre [E _]].
    apply lazy_until_prefix in Hl as [post E'].
    exists pre, post. congruence. }
  induction s as [|c r IH]; simpl.
  - destruct (match strip_prefix_ci open [] with
              | Some r => lazy_until close r | None => None end) eqn:Hm;
      [|discriminate].
    intros H. injection H as ->. apply Here. exact Hm.
  - destruct (match strip_prefix_ci open (c :: r) with
              | Some r0 => lazy_until close r0 | None => None end) eqn:Hm.
    + intros H. injection H as ->. apply Here. exact Hm.
    + intros H. destruct (IH H) as [pre [post E]].
      exists (c :: pre), post. simpl. congruence.
Qed.

Lemma fence_strip_part (text : jsstring) :
  exists pre post, text = pre ++ fence_strip text ++ post.
Proof.
  unfold fence_strip.
  destruct (regex_match fence_json fence text) as [cap|] eqn:H1.
  - eapply regex_match_part; eauto.
  - destruct (regex_match fence fence text) as [cap|] eqn:H2.
    + eapply regex_match_part; eauto.
    + exists [], []. simpl. rewrite app_nil_r. reflexivity.
Qed.

Lemma fence_strip_In (c : N) (text : jsstring) :
  In c (fence_strip text) -> In c text.
Proof.
  intros H. destruct (fence_strip_part text) as [pre [post E]].
  rewrite E. apply in_or_app. right. apply in_or_app. left. exact H.
Qed.

Lemma indexOf_absent (c : N) (s : jsstring) :
  ~ In c s -> indexOf c s = (-1)%Z.
Proof.
  induction s as [|x s IH]; simpl; intros H; [reflexivity|].
  destruct (N.eqb_spec x c) as [->|_]; [tauto|].
  rewrite IH by tauto. reflexivity.
Qed.


Lemma lastIndexOf_bound (c : N) (s : jsstring) :
  (-1 <= lastIndexOf c s < Z.of_nat (List.length s))%Z \/ (s = [] /\ lastIndexOf c s = (-1)%Z).
Proof.
  induction s as [|x s IH]; simpl lastIndexOf; [right; auto|left].
  simpl List.length.
  destruct (Z.eqb_spec (lastIndexOf c s) (-1)).
  - destruct (N.eqb x c); lia.
  - destruct IH as [IH|[_ IH]]; lia.
Qed.


(** ** The JSON parser *)

Lemma consumed_refl (P : N -> bool) (s : jsstring) : consumed P s s.
Proof. exists []. auto. Qed.

Lemma consumed_trans (P : N -> bool) (s r t : jsstring) :
  consumed P s r -> consumed P r t -> consumed P s t.
Proof.
  intros [p1 [-> H1]] [p2 [-> H2]]. exists (p1 ++ p2).
  rewrite forallb_app, H1, H2, app_assoc. auto.
Qed.

Lemma consumed_cons (P : N -> bool) (c : N) (s r : jsstring) :
  P c = true -> consumed P s r -> consumed P (c :: s) r.
Proof.
  intros Hc [p [E H]]. exists (c :: p). simpl. rewrite Hc, H.
  split; [congruence | reflexivity].
Qed.

Lemma consumed_weaken (P Q : N -> bool) (s r : jsstring) :
  (forall c, P c = true -> Q c = true) -> consumed P s r -> consumed Q s r.
Proof.
  intros HPQ [p [E H]]. exists p. split; [exact E|].
  rewrite forallb_forall in *. auto.
Qed.

Lemma consumed_length (P : N -> bool) (s r : jsstring) :
  consumed P s r -> (List.length r <= List.length s)%nat.
Proof. intros [p [-> _]]. rewrite length_app. lia. Qed.

Lemma consumed_not_In (P : N -> bool) (c : N) (s r : jsstring) :
  P c = false -> consumed P s r -> ~ In c r -> ~ In c s.
Proof.
  intros Hc [p [-> H]] Hr Hin. apply in_app_or in Hin as [Hin|Hin]; [|tauto].
  rewrite forallb_forall in H. apply H in Hin. congruence.
Qed.

Lemma span_digits_consumed (s : jsstring) :
  consumed is_digit s (snd (span_digits s))
  /\ (fst (span_digits s) <> [] -> (List.length (snd (span_digits s)) < List.length s)%nat).
Proof.
  induction s as [|c r [IH IL]]; simpl.
  - split; [apply consumed_refl | congruence].
  - destruct (is_digit c) eqn:Hc.
    + destruct (span_digits r) as [ds r'] eqn:E. simpl in *.
      split; [apply consumed_cons; assumption|].
      intros _. apply consumed_length in IH. lia.
    + simpl. split; [apply consumed_refl | congruence].
Qed.

Lemma is_digit_num_char (c : N) : is_digit c = true -> num_char c = true.
Proof. unfold num_char. intros ->. reflexivity. Qed.

Lemma span_digits_num (s : jsstring) (ds : list N) (r : jsstring) :
  span_digits s = (ds, r) ->
  consumed num_char s r /\ (ds <> [] -> (List.length r < List.length s)%nat).
Proof.
  intros E. pose proof (span_digits_consumed s) as [H L]. rewrite E in *.
  simpl in *. split; [|exact L].
  eapply consumed_weaken; [exact is_digit_num_char | exact H].
Qed.

Lemma parse_sign_consumed (s : jsstring) :
  consumed num_char s (snd (parse_sign s)).
Proof.
  destruct s as [|c r]; simpl; [apply consumed_refl|].
  destruct (N.eqb_spec c c_minus) as [->|_]; simpl.
  - apply consumed_cons; [reflexivity | apply consumed_refl].
  - apply consumed_refl.
Qed.

Lemma parse_int_consumed (s : jsstring) (ip : list N) (r : jsstring) :
  parse_int s = Some (ip, r) ->
  consumed num_char s r /\ (List.length r < List.length s)%nat.
Proof.
  unfold parse_int. destruct (span_digits s) as [ds r'] eqn:E.
  apply span_digits_num in E as [H L].
  destruct ds as [|d ds]; [discriminate|].
  destruct (N.eqb d 0 && _); [discriminate|].
  intros Heq. injection Heq as <- <-. split; [exact H|].
  apply L. discriminate.
Qed.

Lemma parse_frac_consumed (s : jsstring) (fp : list N) (r : jsstring) :
  parse_frac s = Some (fp, r) -> consumed num_char s r.
Proof.
  unfold parse_frac. destruct s as [|c s'].
  - intros H. injection H as <- <-. apply consumed_refl.
  - destruct (N.eqb_spec c c_dot) as [->|_].
    + destruct (span_digits s') as [ds r'] eqn:E.
      apply span_digits_num in E as [H _].
      destruct ds; [discriminate|].
      intros Heq. injection Heq as <- <-.
      apply consumed_cons; [reflexivity | exact H].
    + intros H. injection H as <- <-. apply consumed_refl.
Qed.

Lemma parse_exp_sign_consumed (s : jsstring) :
  consumed num_char s (snd (parse_exp_sign s)).
Proof.
  destruct s as [|c r]; simpl; [apply consumed_refl|].
  destruct (N.eqb_spec c c_minus) as [->|_]; simpl.
  - apply consumed_cons; [reflexivity | apply consumed_refl].
  - destruct (N.eqb_spec c c_plus) as [->|_]; simpl.
    + apply consumed_cons; [reflexivity | apply consumed_refl].
    + apply consumed_refl.
Qed.

Lemma parse_exp_consumed (s : jsstring) (e : Z) (r : jsstring) :
  parse_exp s = Some (e, r) -> consumed num_char s r.
Proof.
  unfold parse_exp. destruct s as [|c s'].
  - intros H. injection H as <- <-. apply consumed_refl.
  - destruct (N.eqb c (ch "e") || N.eqb c (ch "E")) eqn:Hc.
    + pose proof (parse_exp_sign_consumed s') as Hs.
      destruct (parse_exp_sign s') as [sg r1]. simpl in Hs.
      destruct (span_digits r1) as [ds r2] eqn:E.
      apply span_digits_num in E as [H _].
      destruct ds; [discriminate|].
      intros Heq. injection Heq as <- <-.
      apply consumed_cons.
      * unfold num_char. apply orb_true_iff in Hc as [-> | ->];
          rewrite ?orb_true_r; reflexivity.
      * eapply consumed_trans; eassumption.
    + intros H. injection H as <- <-. apply consumed_refl.
Qed.

(** A number literal is made of number characters and is not empty. *)
Lemma parse_number_consumed (s : jsstring) (n : number) (r : jsstring) :
  parse_number s = Some (n, r) ->
  consumed num_char s r /\ (List.length r < List.length s)%nat.
Proof.
  unfold parse_number.
  pose proof (parse_sign_consumed s) as Hs.
  destruct (parse_sign s) as [ng s1]. simpl in Hs.
  destruct (parse_int s1) as [[ip s2]|] eqn:Hi; [|discriminate].
  apply parse_int_consumed in Hi as [Hi Li].
  destruct (parse_frac s2) as [[fp s3]|] eqn:Hf; [|discriminate].
  apply parse_frac_consumed in Hf.
  destruct (parse_exp s3) as [[e s4]|] eqn:He; [|discriminate].
  apply parse_exp_consumed in He.
  intros Heq. injection Heq as _ <-.
  split.
  - eapply consumed_trans; [exact Hs|].
    eapply consumed_trans; [exact Hi|].
    eapply consumed_trans; eassumption.
  - apply consumed_length in Hs, Hf, He. lia.
Qed.

Lemma parse_string_shorter (n : nat) :
  forall s str r,
    (List.length s <= n)%nat ->
    parse_string s = Some (str, r) -> (List.length r < List.length s)%nat.
Proof.
  induction n as [|n IH]; intros s str r Hn; destruct s as [|c s];
    simpl; try discriminate.
  - simpl in Hn. lia.
  - simpl in Hn. destruct (N.eqb c c_quote).
    { intros H. injection H as _ <-. lia. }
    destruct (N.eqb c c_backslash).
    + destruct s as [|e r1]; [discriminate|].
      destruct (N.eqb e (ch "u")).
      * destruct r1 as [|h1 [|h2 [|h3 [|h4 r2]]]]; simpl; try discriminate.
        destruct (hex4 h1 h2 h3 h4); [|discriminate].
        destruct (parse_string r2) as [[str' rest]|] eqn:E; [|discriminate].
        intros H. injection H as _ <-.
        apply IH in E; simpl in *; lia.
      * destruct (simple_escape e); [|discriminate].
        destruct (parse_string r1) as [[str' rest]|] eqn:E; [|discriminate].
        intros H. injection H as _ <-.
        apply IH in E; simpl in *; lia.
    + destruct (N.ltb c 32); [discriminate|].
      destruct (parse_string s) as [[str' rest]|] eqn:E; [|discriminate].
      intros H. injection H as _ <-.
      apply IH in E; simpl in *; lia.
Qed.

(** Only the literal that closes at once denotes the empty string. *)
Lemma parse_string_empty (s r : jsstring) :
  parse_string s = Some ([], r) -> s = c_quote :: r.
Proof.
  destruct s as [|c s]; simpl; [discriminate|].
  destruct (N.eqb_spec c c_quote) as [->|_].
  { intros H. injection H as <-. reflexivity. }
  destruct (N.eqb c c_backslash).
  - destruct s as [|e r1]; [discriminate|].
    destruct (N.eqb e (ch "u")).
    + destruct r1 as [|h1 [|h2 [|h3 [|h4 r2]]]]; simpl; try discriminate.
      destruct (hex4 h1 h2 h3 h4); [|discriminate].
      destruct (parse_string r2) as [[str' rest]|]; discriminate.
    + destruct (simple_escape e); [|discriminate].
      destruct (parse_string r1) as [[str' rest]|]; discriminate.
  - destruct (N.ltb c 32); [discriminate|].
    destruct (parse_string s) as [[str' rest]|]; discriminate.
Qed.

(** Case analysis on the scrutinees of a hypothesis. *)
Ltac break_in H :=
  repeat match type of H with
         | context [match ?x with _ => _ end] =>
           destruct x eqn:?; try discriminate H
         end.

(** One step of the recursive descent. *)
Ltac unfold_parser H :=
  cbn [parse_value parse_elements parse_members] in H.

(** Collects what the sub-parsers consumed, as facts on lengths. *)
Ltac lengths :=
  repeat match goal with
         | H : skip_ws ?s = _ |- _ =>
           let L := fresh "L" in
           pose proof (skip_ws_length s) as L; rewrite H in L;
           simpl List.length in L; revert H
         | H : parse_string ?s = Some _ |- _ =>
           let L := fresh "L" in
           pose proof (parse_string_shorter _ _ _ _ (le_n (List.length s)) H) as L;
           simpl List.length in L; revert H
         | H : parse_number ?s = Some _ |- _ =>
           let L := fresh "L" in
           pose proof (proj2 (parse_number_consumed _ _ _ H)) as L;
           simpl List.length in L; revert H
         | H : strip_prefix ?p ?s = Some _ |- _ =>
           let L := fresh "L" in
           pose proof (f_equal (@List.length N) (strip_prefix_app _ _ _ H)) as L;
           rewrite length_app in L; simpl List.length in L; revert H
         end; intros.

(** A member list yields an object, an element list an array. *)
Lemma parse_members_obj (f : nat) :
  forall acc s v r, parse_members f acc s = POk v r -> exists m, v = VObj m.
Proof.
  induction f as [|f IH]; intros acc s v r H; unfold_parser H; [discriminate|].
  break_in H; try (injection H as <- _; eauto); eauto.
Qed.

Lemma parse_elements_arr (f : nat) :
  forall acc s v r, parse_elements f acc s = POk v r -> exists l, v = VArr l.
Proof.
  induction f as [|f IH]; intros acc s v r H; unfold_parser H; [discriminate|].
  break_in H; try (injection H as <- _; eauto); eauto.
Qed.

(** Every parser consumes at least one code unit. *)
Lemma parse_shorter (f : nat) :
  (forall s v r, parse_value f s = POk v r ->
                 (List.length r < List.length s)%nat)
  /\ (forall acc s v r, parse_elements f acc s = POk v r ->
                        (List.length r < List.length s)%nat)
  /\ (forall acc s v r, parse_members f acc s = POk v r ->
                        (List.length r < List.length s)%nat).
Proof.
  induction f as [|f (IHv & IHe & IHm)].
  - repeat split; intros; discriminate.
  - repeat split.
    + intros s v r H. unfold_parser H. break_in H;
        try (injection H as _ <-); try apply IHe in H; try apply IHm in H;
        lengths; simpl List.length in *; lia.
    + intros acc s v r H. unfold_parser H. break_in H;
        try (injection H as _ <-); try apply IHe in H;
        repeat match goal with
               | E : parse_value f _ = POk _ _ |- _ => apply IHv in E
               end;
        lengths; simpl List.length in *; lia.
    + intros acc s v r H. unfold_parser H. break_in H;
        try (injection H as _ <-); try apply IHm in H;
        repeat match goal with
               | E : parse_value f _ = POk _ _ |- _ => apply IHv in E
               end;
        lengths; simpl List.length in *; lia.
Qed.

(** The fuel of [JSON_parse] is never used up: a value is entered with
    more than twice the length of the text left, a list of elements or of
    members with one more. *)
Lemma parse_fuel_bound (f : nat) :
  (forall s, (2 * List.length s + 1 <= f)%nat -> parse_value f s <> PFuel)
  /\ (forall acc s, (2 * List.length s + 2 <= f)%nat ->
                    parse_elements f acc s <> PFuel)
  /\ (forall acc s, (2 * List.length s + 2 <= f)%nat ->
                    parse_members f acc s <> PFuel).
Proof.
  induction f as [|f (IHv & IHe & IHm)].
  - repeat split; intros; simpl in *; lia.
  - repeat split; intros; intro Hp; unfold_parser Hp; break_in Hp;
      repeat match goal with
             | E : parse_value f _ = POk _ _ |- _ =>
               apply (proj1 (parse_shorter f)) in E
             end;
      lengths;
      first [ eapply IHv; [|eassumption]
            | eapply IHe; [|eassumption]
            | eapply IHm; [|eassumption] ];
      simpl List.length in *; lia.
Qed.

Lemma parse_fuel_enough (s : jsstring) : parse_value (parse_fuel s) s <> PFuel.
Proof. apply (proj1 (parse_fuel_bound (parse_fuel s))). unfold parse_fuel. lia. Qed.

(** More fuel does not change a result that was reached. *)
Lemma parse_fuel_mono (f : nat) :
  (forall s f', (f <= f')%nat -> parse_value f s <> PFuel ->
                parse_value f' s = parse_value f s)
  /\ (forall acc s f', (f <= f')%nat -> parse_elements f acc s <> PFuel ->
                       parse_elements f' acc s = parse_elements f acc s)
  /\ (forall acc s f', (f <= f')%nat -> parse_members f acc s <> PFuel ->
                       parse_members f' acc s = parse_members f acc s).
Proof.
  induction f as [|f (IHv & IHe & IHm)].
  - repeat split; intros; simpl in *; congruence.
  - repeat split.
    + intros s [|f'] Hle Hne; [lia|].
      cbn [parse_value parse_elements parse_members] in *.
      repeat match goal with
             | |- context [match ?x with _ => _ end] =>
               lazymatch x with
               | parse_members _ _ _ => fail
               | parse_elements _ _ _ => fail
               | _ => destruct x eqn:?
               end
             end; try reflexivity;
        first [apply IHm | apply IHe]; try lia; assumption.
    + intros acc s [|f'] Hle Hne; [lia|].
      cbn [parse_value parse_elements parse_members] in *.
      assert (Hv : parse_value f s <> PFuel)
        by (intros E; rewrite E in Hne; congruence).
      rewrite (IHv s f' ltac:(lia) Hv).
      repeat match goal with
             | |- context [match ?x with _ => _ end] =>
               lazymatch x with
               | parse_elements _ _ _ => fail
               | _ => destruct x eqn:?
               end
             | H : context [match ?x with _ => _ end] |- _ =>
               lazymatch x with
               | parse_elements _ _ _ => fail
               | _ => destruct x eqn:?
               end
             end; try reflexivity; try congruence.
      all: apply IHe; try lia; assumption.
    + intros acc s [|f'] Hle Hne; [lia|].
      cbn [parse_value parse_elements parse_members] in *.
      repeat match goal with
             | |- context [match ?x with _ => _ end] =>
               lazymatch x with
               | parse_members _ _ _ => fail
               | parse_value _ _ => fail
               | _ => destruct x eqn:?
               end
             end; try reflexivity.
      match goal with
      | |- context [parse_value f' ?t] =>
        assert (Hv : parse_value f t <> PFuel)
          by (intros E; rewrite E in Hne; congruence);
          rewrite (IHv t f' ltac:(lia) Hv)
      end.
      repeat match goal with
             | |- context [match ?x with _ => _ end] =>
               lazymatch x with
               | parse_members _ _ _ => fail
               | _ => destruct x eqn:?
               end
             | H : context [match ?x with _ => _ end] |- _ =>
               lazymatch x with
               | parse_members _ _ _ => fail
               | _ => destruct x eqn:?
               end
             end; try reflexivity; try congruence.
      all: apply IHm; try lia; assumption.
Qed.

(** The result of [JSON_parse] does not depend on the amount of fuel, as
    long as there is at least [parse_fuel]. *)
Lemma parse_fuel_irrelevant (s : jsstring) (f : nat) :
  (parse_fuel s <= f)%nat -> parse_value f s = parse_value (parse_fuel s) s.
Proof.
  intros Hf. apply (proj1 (parse_fuel_mono (parse_fuel s))); [exact Hf|].
  apply parse_fuel_enough.
Qed.


Lemma plain_intro (P : N -> bool) :
  P c_lbrace = false -> P c_rbrace = false ->
  forall c, P c = true -> plain c = true.
Proof.
  intros Hl Hr c Hc. unfold plain.
  destruct (N.eqb_spec c c_lbrace) as [->|_]; [congruence|].
  destruct (N.eqb_spec c c_rbrace) as [->|_]; [congruence|].
  reflexivity.
Qed.

Lemma skip_ws_consumed (s : jsstring) : consumed plain s (skip_ws s).
Proof.
  destruct (skip_ws_split s) as [ws [E W]].
  apply consumed_weaken with (P := is_ws).
  - apply plain_intro; reflexivity.
  - exists ws. auto.
Qed.

Lemma consumed_literal (lit s r : jsstring) :
  forallb plain lit = true -> strip_prefix lit s = Some r -> consumed plain s r.
Proof.
  intros Hl H. apply strip_prefix_app in H. exists lit. auto.
Qed.

(** A text whose value is falsy holds no brace: it is [null], [false], a
    number or the empty string literal, between white space. *)
Lemma falsy_parse_plain (f : nat) (s : jsstring) (v : value) (r : jsstring) :
  parse_value f s = POk v r -> truthy v = false -> consumed plain s r.
Proof.
  intros H Hv. destruct f as [|f]; [discriminate|].
  unfold_parser H.
  eapply consumed_trans; [apply skip_ws_consumed|].
  break_in H.
  - injection H as <- _. discriminate.
  - apply parse_members_obj in H as [m ->]. discriminate.
  - injection H as <- _. discriminate.
  - apply parse_elements_arr in H as [l ->]. discriminate.
  - injection H as <- <-. simpl in Hv.
    match goal with
    | E : parse_string _ = Some (?str, _) |- _ =>
      destruct str; [|discriminate]; apply parse_string_empty in E; subst
    end.
    match goal with
    | E : N.eqb _ c_quote = true |- _ => apply N.eqb_eq in E; subst
    end.
    apply consumed_cons; [reflexivity|].
    apply consumed_cons; [reflexivity|]. apply consumed_refl.
  - injection H as _ <-.
    match goal with
    | E : parse_number _ = Some _ |- _ =>
      apply parse_number_consumed in E as [E _]
    end.
    eapply consumed_weaken; [|eassumption].
    apply plain_intro; reflexivity.
  - injection H as <- _. discriminate.
  - injection H as _ <-. eapply consumed_literal; [|eassumption]. reflexivity.
  - injection H as _ <-. eapply consumed_literal; [|eassumption]. reflexivity.
Qed.

Lemma consumed_all_plain (s : jsstring) (c : N) :
  consumed plain s [] -> plain c = false -> ~ In c s.
Proof.
  intros H Hc. eapply consumed_not_In; [exact Hc | exact H | simpl; tauto].
Qed.

Lemma falsy_JSON_plain (s : jsstring) (v : value) :
  JSON_parse s = Return v -> truthy v = false ->
  ~ In c_lbrace s /\ ~ In c_rbrace s.
Proof.
  unfold JSON_parse. intros H Hv.
  destruct (parse_value (parse_fuel s) s) as [v' r| |] eqn:E; try discriminate.
  destruct (skip_ws r) eqn:Er; [|discriminate].
  injection H as ->.
  assert (Hs : consumed plain s []).
  { eapply consumed_trans; [eapply falsy_parse_plain; eassumption|].
    rewrite <- Er. apply skip_ws_consumed. }
  split; eapply consumed_all_plain; eauto.
Qed.


Lemma JSON_parse_empty : JSON_parse [] = Throw SyntaxError.
Proof. reflexivity. Qed.

(** ** The reply normalizer *)

Lemma tryParse_accepted (text : jsstring) :
  exists parsed,
    tryParse text = Return parsed
    /\ accepted text = (if truthy parsed then Some parsed else None).
Proof.
  unfold tryParse, accepted, try_catch.
  destruct (JSON_parse text) as [v|e].
  - exists v. auto.
  - exists VNull. auto.
Qed.

(** The function is the chain of its two decoding attempts. *)
Lemma parseModelReplyToJson_chain (s : jsstring) :
  parseModelReplyToJson (VStr s) = Return (normalize_chain s).
Proof.
  unfold normalize_chain, first_match, direct_parse, brace_span_parse, brace_span.
  destruct s as [|c s]; [reflexivity|].
  unfold parseModelReplyToJson. simpl truthy. simpl is_string.
  cbn [andb orb negb typeof_object].
  destruct (tryParse_accepted (c :: s)) as [p1 [-> ->]]. cbn [bind].
  destruct (truthy p1); [reflexivity|].
  cbv zeta.
  destruct (negb _ && negb _ && _); [|reflexivity].
  destruct (tryParse_accepted
              (slice (fence_strip (c :: s))
                     (indexOf c_lbrace (fence_strip (c :: s)))
                     (lastIndexOf c_rbrace (fence_strip (c :: s)) + 1)))
    as [p2 [-> ->]].
  cbn [bind]. destruct (truthy p2); reflexivity.
Qed.



Lemma brace_span_none (text : jsstring) :
  ~ In c_lbrace text -> brace_span text = None.
Proof.
  intros H. unfold brace_span. rewrite indexOf_absent by exact H. reflexivity.
Qed.

Lemma direct_parse_wins (s : jsstring) (v : value) :
  JSON_parse s = Return v -> truthy v = true ->
  parseModelReplyToJson (VStr s) = Return v.
Proof.
  intros Hp Hv. rewrite parseModelReplyToJson_chain.
  unfold normalize_chain, first_match, direct_parse, accepted.
  rewrite Hp, Hv. reflexivity.
Qed.

Lemma no_brace_sentinel (s : jsstring) :
  ~ In c_lbrace s -> direct_parse s = None ->
  parseModelReplyToJson (VStr s) = Return (sentinel (VStr s)).
Proof.
  intros Hb Hd. rewrite parseModelReplyToJson_chain.
  unfold normalize_chain, first_match. rewrite Hd.
  unfold brace_span_parse. rewrite brace_span_none; [reflexivity|].
  intros Hin. apply Hb. apply fence_strip_In. exact Hin.
Qed.

Lemma resume_record_truthy (v : value) : resume_record v = true -> truthy v = true.
Proof. destruct v; simpl; congruence. Qed.

(** *** C3 *)



(** *** C4 *)

(** An array in a json-tagged fence: the chain of the specification parses
    the contents of the fence and yields the array, the function looks for
    a brace span only and yields the sentinel. *)
Lemma fenced_array_not_parsed :
  let reply := fence_json ++ u "[1,2]" ++ fence in
  normalize_as_specified reply
  = VArr [VNum (mkNumber false 1 0); VNum (mkNumber false 2 0)]
  /\ parseModelReplyToJson (VStr reply) = Return (sentinel (VStr reply))
  /\ parseModelReplyToJson (VStr reply) <> Return (normalize_as_specified reply).
Proof.
  cbv zeta. split; [vm_compute; reflexivity|].
  split; [vm_compute; reflexivity|].
  vm_compute. discriminate.
Qed.

(** C4 (amended): the normalizer is a first-match-wins chain of two decoding
    attempts and the sentinel: the whole reply parsed as JSON; else the span
    from the first opening to the last closing brace of the text, which is
    the contents of the first json-tagged fence, else of the first fence,
    else the reply (the contents of a fence are not parsed on their own);
    else the sentinel.  An attempt succeeds when the text parses to a truthy
    value, and a later attempt is used only when the earlier ones failed. *)
Theorem normalize_first_match_wins (s : jsstring) :
  parseModelReplyToJson (VStr s)
  = Return (first_match [direct_parse; brace_span_parse] s)
  /\ (forall v, direct_parse s = Some v ->
                parseModelReplyToJson (VStr s) = Return v)
  /\ (forall v, direct_parse s = None -> brace_span_parse s = Some v ->
                parseModelReplyToJson (VStr s) = Return v)
  /\ (direct_parse s = None -> brace_span_parse s = None ->
      parseModelReplyToJson (VStr s) = Return (sentinel (VStr s)))
  /\ brace_span_parse s
     = match brace_span (match fenced_block s with
                         | Some body => body
                         | None => s
                         end) with
       | Some jsonSlice => accepted jsonSlice
       | None => None
       end.
Proof.
  rewrite parseModelReplyToJson_chain.
  unfold normalize_chain, first_match.
  split; [reflexivity|]. split; [|split; [|split]].
  - intros v ->. reflexivity.
  - intros v -> ->. reflexivity.
  - intros -> ->. reflexivity.
  - reflexivity.
Qed.

Lemma normalize_first_match_wins_witness :
  let reply := u "Sure: " ++ fence_json ++ uq " {'name':'Li Lei'} " ++ fence
               ++ u " bye" in
  let v := VObj [(u "name", VStr (u "Li Lei"))] in
  direct_parse reply = None
  /\ brace_span_parse reply = Some v
  /\ parseModelReplyToJson (VStr reply) = Return v.
Proof.
  cbv zeta.
  split; [vm_compute; reflexivity|]. split; [vm_compute; reflexivity|].
  eapply (proj1 (proj2 (proj2 (normalize_first_match_wins _))));
    vm_compute; reflexivity.
Defined.

(** A JSON object in a fence between prose, and a JSON object between
    prose: both chains return the fields of the object. *)
Example fenced_object_reply :
  let reply := u "Here is the result:" ++ [10%N] ++ fence_json ++ [10%N]
               ++ uq "{'name':'Li Lei','age':28}" ++ [10%N] ++ fence
               ++ u " Done." in
  let v := VObj [(u "name", VStr (u "Li Lei"));
                 (u "age", VNum (mkNumber false 28 0))] in
  parseModelReplyToJson (VStr reply) = Return v
  /\ normalize_as_specified reply = v.
Proof. cbv zeta. split; vm_compute; reflexivity. Qed.

Example brace_span_reply :
  let reply := u "Sure, here you go: "
               ++ uq "{'name':'" ++ [24352%N; 19977%N]
               ++ uq "','gender':null,'age':null,'education':null,'phone':null,'email':null}"
               ++ u " Hope this helps!" in
  let v := VObj [(u "name", VStr [24352%N; 19977%N]); (u "gender", VNull);
                 (u "age", VNull); (u "education", VNull);
                 (u "phone", VNull); (u "email", VNull)] in
  parseModelReplyToJson (VStr reply) = Return v
  /\ normalize_as_specified reply = v
  /\ resume_record v = true.
Proof. cbv zeta. repeat split; vm_compute; reflexivity. Qed.

(** *** C5 *)

(** C5: a reply that is a JSON object with the six fields of the schema is
    returned as the value it parses to. *)
Theorem normalize_roundtrip (s : jsstring) (v : value) :
  JSON_parse s = Return v -> resume_record v = true ->
  parseModelReplyToJson (VStr s) = Return v.
Proof.
  intros Hp Hr. apply direct_parse_wins; [exact Hp|].
  apply resume_record_truthy. exact Hr.
Qed.

Lemma normalize_roundtrip_witness :
  let s := uq "{'name':'Li Lei','gender':null,'age':28,'education':'BSc','phone':'13800000000','email':null}" in
  let v := VObj [(u "name", VStr (u "Li Lei")); (u "gender", VNull);
                 (u "age", VNum (mkNumber false 28 0));
                 (u "education", VStr (u "BSc"));
                 (u "phone", VStr (u "13800000000")); (u "email", VNull)] in
  JSON_parse s = Return v /\ resume_record v = true
  /\ parseModelReplyToJson (VStr s) = Return v.
Proof.
  cbv zeta. split; [vm_compute; reflexivity|]. split; [vm_compute; reflexivity|].
  apply normalize_roundtrip; vm_compute; reflexivity.
Defined.

(** *** C6 *)

(** The reply ["[1,2]"] holds no brace and is returned as an array. *)
Lemma no_brace_array_reply :
  ~ In c_lbrace (u "[1,2]") /\ ~ In c_rbrace (u "[1,2]")
  /\ parseModelReplyToJson (VStr (u "[1,2]"))
     = Return (VArr [VNum (mkNumber false 1 0); VNum (mkNumber false 2 0)])
  /\ parseModelReplyToJson (VStr (u "[1,2]"))
     <> Return (sentinel (VStr (u "[1,2]"))).
Proof.
  assert (Hno : forall c, (c = c_lbrace \/ c = c_rbrace) -> ~ In c (u "[1,2]")).
  { intros c Hc Hin. vm_compute in Hin.
    repeat destruct Hin as [Hin|Hin]; try contradiction;
      destruct Hc; subst; discriminate. }
  split; [apply Hno; auto|]. split; [apply Hno; auto|].
  split; [vm_compute; reflexivity | vm_compute; discriminate].
Qed.

(** C6 (amended): a reply that holds no brace and is not itself JSON for a
    truthy value is answered by the sentinel: none of the six fields is
    present and [raw] is the reply. *)
Theorem no_brace_reply_sentinel (s : jsstring) :
  ~ In c_lbrace s -> ~ In c_rbrace s -> direct_parse s = None ->
  exists m,
    parseModelReplyToJson (VStr s) = Return (VObj m)
    /\ Forall (fun k => obj_get k m = None) six_fields
    /\ obj_get (u "raw") m = Some (VStr s).
Proof.
  intros Hl _ Hd. exists [(u "raw", VStr s)].
  split; [apply no_brace_sentinel; assumption|].
  split; [|reflexivity].
  repeat constructor.
Qed.

Lemma no_brace_reply_sentinel_witness :
  let s := u "I could not read this resume." in
  exists m,
    parseModelReplyToJson (VStr s) = Return (VObj m)
    /\ Forall (fun k => obj_get k m = None) six_fields
    /\ obj_get (u "raw") m = Some (VStr s).
Proof.
  cbv zeta. apply no_brace_reply_sentinel.
  - vm_compute. intuition discriminate.
  - vm_compute. intuition discriminate.
  - vm_compute. reflexivity.
Defined.

(** *** C10 *)

(** C10: a reply that is JSON for a falsy value ([null], [false], a number
    that is zero, the empty string) is not returned as that value: the later
    attempts run and, as such a text holds no brace, the sentinel carrying
    the reply is returned. *)
Theorem falsy_reply_falls_through (s : jsstring) (v : value) :
  JSON_parse s = Return v -> truthy v = false ->
  parseModelReplyToJson (VStr s) = Return (sentinel (VStr s))
  /\ parseModelReplyToJson (VStr s) <> Return v.
Proof.
  intros Hp Hv.
  assert (Hs : parseModelReplyToJson (VStr s) = Return (sentinel (VStr s))).
  { apply no_brace_sentinel.
    - apply (falsy_JSON_plain s v Hp Hv).
    - unfold direct_parse, accepted. rewrite Hp, Hv. reflexivity. }
  split; [exact Hs|]. rewrite Hs. intros E. injection E as <-. discriminate.
Qed.

Lemma falsy_reply_falls_through_witness :
  parseModelReplyToJson (VStr (u "null")) = Return (sentinel (VStr (u "null")))
  /\ parseModelReplyToJson (VStr (u "null")) <> Return VNull.
Proof.
  apply falsy_reply_falls_through; vm_compute; reflexivity.
Defined.

(** The four texts named in C10. *)
Lemma falsy_texts :
  Forall (fun s => parseModelReplyToJson (VStr s) = Return (sentinel (VStr s)))
         [u "null"; u "false"; u "0"; [c_quote; c_quote]].
Proof. repeat constructor. Qed.

(** ** The text extractor *)

Lemma lower_unit_fold (c x : N) :
  lower_literal [x] = true ->
  (lower_unit c = [105; 775]%N /\ N.eqb (canonicalize c) (canonicalize x) = false)
  \/ exists y, lower_unit c = [y]
               /\ N.eqb y x = N.eqb (canonicalize c) (canonicalize x).
Proof.
  unfold lower_literal, lower_unit, canonicalize. simpl forallb.
  rewrite andb_true_r. intros Hx.
  repeat match type of Hx with
         | (_ && _) = true => apply andb_true_iff in Hx as [Hx ?]
         end.
  repeat match goal with
         | H : negb _ = true |- _ => apply negb_true_iff in H
         | H : N.ltb _ _ = true |- _ => apply N.ltb_lt in H
         | H : N.eqb _ _ = false |- _ => apply N.eqb_neq in H
         end.
  destruct (N.leb_spec 65 c), (N.leb_spec c 90), (N.leb_spec 97 c),
    (N.leb_spec c 122), (N.leb_spec 65 x), (N.leb_spec x 90),
    (N.leb_spec 97 x), (N.leb_spec x 122);
    simpl in *; try discriminate; try lia;
    try (right; eexists; split; [reflexivity|];
         match goal with
         | |- N.eqb ?a ?b = N.eqb ?c ?d =>
           destruct (N.eqb_spec a b), (N.eqb_spec c d); try reflexivity; lia
         end);
    destruct (N.eqb_spec c 8490), (N.eqb_spec c 304); subst;
    try discriminate; try lia;
    try (left; split; [reflexivity|];
         match goal with
         | |- N.eqb ?a ?b = false => apply N.eqb_neq; lia
         end);
    right; eexists; (split; [reflexivity|]);
    match goal with
    | |- N.eqb ?a ?b = N.eqb ?c ?d =>
      destruct (N.eqb_spec a b), (N.eqb_spec c d); try reflexivity; lia
    end.
Qed.

(** Comparing the lower-cased extension with a lower-case literal is
    comparing the extension with it up to case. *)
Lemma toLowerCase_ci (e : jsstring) :
  forall lit, lower_literal lit = true ->
              str_eqb (toLowerCase e) lit = ci_eqb e lit.
Proof.
  induction e as [|c e IH]; intros lit Hlit.
  - destruct lit; reflexivity.
  - destruct lit as [|x lit].
    + simpl. unfold lower_unit.
      destruct (N.leb 65 c && N.leb c 90); [reflexivity|].
      destruct (N.eqb c 8490); [reflexivity|].
      destruct (N.eqb c 304); reflexivity.
    + assert (Hx : lower_literal [x] = true /\ lower_literal lit = true
                   /\ N.eqb 105 x = false).
      { unfold lower_literal in *. simpl forallb in *.
        apply andb_true_iff in Hlit as [Hx Hl].
        split; [rewrite Hx; reflexivity|]. split; [exact Hl|].
        apply andb_true_iff in Hx as [_ Hx]. apply negb_true_iff in Hx.
        rewrite N.eqb_sym. exact Hx. }
      destruct Hx as (Hx & Hl & Hi).
      change (toLowerCase (c :: e)) with (lower_unit c ++ toLowerCase e).
      destruct (lower_unit_fold c x Hx) as [[-> Hc] | [y [-> Hy]]].
      * cbn [str_eqb ci_eqb app]. rewrite Hi, Hc. reflexivity.
      * cbn [str_eqb ci_eqb app]. rewrite Hy, (IH lit Hl). reflexivity.
Qed.

(** *** C7 *)

(** A file that cannot be read raises the read error whatever its
    extension is. *)
Lemma unreadable_other_extension_raises :
  let w := demo_world [u "notes.txt"] [] [] in
  toLowerCase (extname w (u "notes.txt")) = u ".txt"
  /\ fst (extractTextFromResumeFile w (u "notes.txt") initial_state)
     = Throw (External 2).
Proof. cbv zeta. split; vm_compute; reflexivity. Qed.

(** The extractor, with its dispatch written up to case. *)
Lemma extractTextFromResumeFile_eq (w : World) (filePath : path) (s : state) :
  extractTextFromResumeFile w filePath s =
  match readFile w (trace s) filePath with
  | Throw e => (Throw e, log (EvReadFile filePath) s)
  | Return buf =>
    let s1 := log (EvReadFile filePath) s in
    if ci_eqb (extname w filePath) (u ".pdf") then
      (map_completion or_empty (pdf w (trace s1) buf), log (EvPdf buf) s1)
    else if ci_eqb (extname w filePath) (u ".docx") then
      (map_completion or_empty (extractRawText w (trace s1) buf),
       log (EvMammoth buf) s1)
    else (Return [], s1)
  end.
Proof.
  unfold extractTextFromResumeFile, bindM, call, ret.
  destruct (readFile w (trace s) filePath) as [buf|e]; [|reflexivity].
  cbv zeta.
  rewrite (toLowerCase_ci (extname w filePath) (u ".pdf")) by reflexivity.
  rewrite (toLowerCase_ci (extname w filePath) (u ".docx")) by reflexivity.
  destruct (ci_eqb (extname w filePath) (u ".pdf")).
  - destruct (pdf w _ buf); reflexivity.
  - destruct (ci_eqb (extname w filePath) (u ".docx")); [|reflexivity].
    destruct (extractRawText w _ buf); reflexivity.
Qed.


(** C7 (amended): the extractor first reads the file and raises the read
    error if that fails, whatever the extension.  It then dispatches on the
    extension up to case: [.pdf] goes to the PDF decoder and [.docx] to
    the raw-text DOCX decoder (a missing or empty text becomes the empty
    string, a decoder error is raised); a readable file with any other
    extension yields the empty string and no decoder is called. *)
Theorem extract_dispatch (w : World) (filePath : path) (s : state) :
  extractTextFromResumeFile w filePath s =
  match readFile w (trace s) filePath with
  | Throw e => (Throw e, log (EvReadFile filePath) s)
  | Return buf =>
    let s1 := log (EvReadFile filePath) s in
    if ci_eqb (extname w filePath) (u ".pdf") then
      (map_completion or_empty (pdf w (trace s1) buf), log (EvPdf buf) s1)
    else if ci_eqb (extname w filePath) (u ".docx") then
      (map_completion or_empty (extractRawText w (trace s1) buf),
       log (EvMammoth buf) s1)
    else (Return [], s1)
  end.
Proof. apply extractTextFromResumeFile_eq. Qed.

(** The same decoder is chosen for [.PDF] and [.pdf], for [.Docx] and
    [.docx]. *)
Lemma extension_case_examples :
  ci_eqb (u ".PDF") (u ".pdf") = true /\ ci_eqb (u ".pdf") (u ".pdf") = true
  /\ ci_eqb (u ".Docx") (u ".docx") = true
  /\ ci_eqb (u ".txt") (u ".pdf") = false.
Proof. repeat split; reflexivity. Qed.

(** ** Running the main process *)

Lemma bindM_inv {A B : Type} (c : M A) (k : A -> M B) (s s' : state)
      (r : completion B) :
  bindM c k s = (r, s') ->
  (exists a s1, c s = (Return a, s1) /\ k a s1 = (r, s'))
  \/ (exists e, c s = (Throw e, s') /\ r = Throw e).
Proof.
  unfold bindM. destruct (c s) as [[a|e] s1]; intros H.
  - left. eauto.
  - right. injection H as <- <-. eauto.
Qed.

Lemma try_catchM_inv {A : Type} (c : M A) (h : exn -> M A) (s s' : state)
      (r : completion A) :
  try_catchM c h s = (r, s') ->
  (exists a, c s = (Return a, s') /\ r = Return a)
  \/ (exists e s1, c s = (Throw e, s1) /\ h e s1 = (r, s')).
Proof.
  unfold try_catchM. destruct (c s) as [[a|e] s1]; intros H.
  - left. injection H as <- <-. eauto.
  - right. eauto.
Qed.

Lemma call_inv {A : Type} (f : list event -> completion A) (e : event)
      (s s' : state) (r : completion A) :
  call f e s = (r, s') -> r = f (trace s) /\ s' = log e s.
Proof. unfold call. intros H. injection H as <- <-. auto. Qed.

Lemma ask_inv {A : Type} (f : list event -> completion A)
      (s s' : state) (r : completion A) :
  ask f s = (r, s') -> r = f (trace s) /\ s' = s.
Proof. unfold ask. intros H. injection H as <- <-. auto. Qed.

Lemma emit_inv (e : event) (s s' : state) (r : completion unit) :
  emit e s = (r, s') -> r = Return tt /\ s' = log e s.
Proof. unfold emit. intros H. injection H as <- <-. auto. Qed.

Lemma ret_inv {A : Type} (a : A) (s s' : state) (r : completion A) :
  ret a s = (r, s') -> r = Return a /\ s' = s.
Proof. unfold ret. intros H. injection H as <- <-. auto. Qed.

Lemma throw_inv {A : Type} (e : exn) (s s' : state) (r : completion A) :
  @throw A e s = (r, s') -> r = Throw e /\ s' = s.
Proof. unfold throw. intros H. injection H as <- <-. auto. Qed.

Lemma lift_inv {A : Type} (c : completion A) (s s' : state) (r : completion A) :
  lift c s = (r, s') -> r = c /\ s' = s.
Proof. unfold lift. intros H. injection H as <- <-. auto. Qed.

(** Splits a run into the runs of its steps, one case per outcome. *)
Ltac invM :=
  repeat match goal with
         | H : bindM _ _ _ = (_, _) |- _ =>
           apply bindM_inv in H as [(? & ? & ? & ?) | (? & ? & ?)]
         | H : try_catchM _ _ _ = (_, _) |- _ =>
           apply try_catchM_inv in H as [(? & ? & ?) | (? & ? & ? & ?)]
         | H : call _ _ _ = (_, _) |- _ => apply call_inv in H as [? ?]
         | H : ask _ _ = (_, _) |- _ => apply ask_inv in H as [? ?]
         | H : emit _ _ = (_, _) |- _ => apply emit_inv in H as [? ?]
         | H : ret _ _ = (_, _) |- _ => apply ret_inv in H as [? ?]
         | H : throw _ _ = (_, _) |- _ => apply throw_inv in H as [? ?]
         | H : lift _ _ = (_, _) |- _ => apply lift_inv in H as [? ?]
         | H : set_llamaModel _ _ = (_, _) |- _ =>
           unfold set_llamaModel in H; injection H as ? ?
         | H : set_llamaContext _ _ = (_, _) |- _ =>
           unfold set_llamaContext in H; injection H as ? ?
         | H : set_chatSession _ _ = (_, _) |- _ =>
           unfold set_chatSession in H; injection H as ? ?
         | H : (if ?b then _ else _) _ = (_, _) |- _ => destruct b eqn:?
         | H : match ?l with [] => _ | _ :: _ => _ end _ = (_, _) |- _ =>
           destruct l eqn:?
         | H : Return _ = Return _ |- _ => injection H as ?
         | H : Throw _ = Return _ |- _ => discriminate H
         | H : Return _ = Throw _ |- _ => discriminate H
         end.

(** Writes the final trace as the initial one followed by explicit events. *)
Ltac traces :=
  subst;
  cbn [trace log llamaModel llamaContext chatSession history];
  repeat rewrite <- app_assoc; cbn [app].

Lemma since_app (s s' : state) (evs : list event) :
  trace s' = trace s ++ evs -> since s s' = evs.
Proof.
  intros E. unfold since. rewrite E, skipn_app, skipn_all, Nat.sub_diag.
  reflexivity.
Qed.

Lemma emitted_app (a b : list event) : emitted (a ++ b) = emitted a ++ emitted b.
Proof.
  induction a as [|e a IH]; [reflexivity|].
  destruct e; simpl; try exact IH.
  destruct payload; simpl; try (rewrite IH; reflexivity).
  destruct (obj_get (u "filePath") m) as [[]|]; simpl; rewrite IH; reflexivity.
Qed.

Lemma loads_app (a b : list event) : loads (a ++ b) = (loads a + loads b)%nat.
Proof.
  induction a as [|e a IH]; [reflexivity|].
  destruct e; simpl; rewrite IH; reflexivity.
Qed.

Lemma fresh_from_mono (tr : list event) :
  fresh_from false tr = true -> fresh_from true tr = true.
Proof. destruct tr as [|[] tr]; simpl; intros H; try discriminate; auto. Qed.

Lemma fresh_from_app (a b : list event) :
  forall x, fresh_from x a = true -> fresh_from false b = true ->
            fresh_from x (a ++ b) = true.
Proof.
  induction a as [|e a IH]; intros x Ha Hb.
  - destruct x; [apply fresh_from_mono|]; exact Hb.
  - destruct e; simpl in *; auto.
    apply andb_true_iff in Ha as [Ha1 Ha2]. rewrite Ha1. simpl. auto.
Qed.

(** What [fresh_from] checks, in terms of the positions of the trace. *)
Lemma fresh_from_spec (tr : list event) :
  forall x, fresh_from x tr = true ->
  forall pre h q post,
    tr = pre ++ EvPrompt h q :: post ->
    h = [] /\ (pre = [] /\ x = true \/ exists pre', pre = pre' ++ [EvResetChatHistory]).
Proof.
  induction tr as [|e tr IH]; intros x Hx pre h q post E.
  - destruct pre; discriminate.
  - destruct pre as [|e' pre].
    + injection E as -> ->. simpl in Hx.
      apply andb_true_iff in Hx as [Hx _]. apply andb_true_iff in Hx as [Hx Hh].
      destruct h; [|discriminate]. auto.
    + injection E as <- ->.
      assert (Hnext : exists y, fresh_from y (pre ++ EvPrompt h q :: post) = true
                                /\ (y = true -> e = EvResetChatHistory)).
      { destruct e; simpl in Hx;
          try (exists false; split; [exact Hx | discriminate]).
        - exists true. auto.
        - apply andb_true_iff in Hx as [_ Hx].
          exists false. split; [exact Hx | discriminate]. }
      destruct Hnext as [y [Hy Hreset]].
      destruct (IH y Hy pre h q post eq_refl) as [Hh [[-> Hyt] | [pre' ->]]].
      * split; [exact Hh|]. right. exists []. rewrite (Hreset Hyt). reflexivity.
      * split; [exact Hh|]. right. exists (e :: pre'). reflexivity.
Qed.

(** *** The model session *)

Lemma initModel_ready (w : World) (s : state) :
  ready s = true -> initModel w s = (Return tt, s).
Proof. intros H. unfold initModel. rewrite H. reflexivity. Qed.

Lemma initModel_trace (w : World) (s s' : state) (r : completion unit) :
  initModel w s = (r, s') ->
  exists evs,
    trace s' = trace s ++ evs
    /\ emitted evs = [] /\ fresh_from false evs = true
    /\ (r = Return tt ->
        ready s' = true
        /\ (ready s = true -> s' = s)
        /\ (ready s = false -> loads evs = 1%nat)).
Proof.
  intros H. unfold initModel in H.
  destruct (ready s) eqn:Hr.
  { injection H as <- <-. exists []. rewrite app_nil_r.
    repeat split; auto; congruence. }
  unfold resolveModelPath, ensureUserModelDir in H.
  invM; traces; (eexists; split; [reflexivity|]);
    repeat split; try reflexivity; try discriminate.
Qed.

(** *** C8 *)

(** On a machine where the model loads but no context can be created for
    it, the first call throws after the load and leaves the session not
    loaded, so the second call starts over and loads the model again: two
    consecutive calls perform two loads. *)
Lemma two_calls_two_loads :
  let w := {| readFile := fun _ p => Return p;
              pdf := fun _ b => Return (Some b);
              extractRawText := fun _ b => Return (Some b);
              extname := posix_extname;
              join := posix_join;
              homedir := fun _ => Return (u "/home/user");
              existsSync := fun _ _ => true;
              mkdirSync := fun _ _ => Return tt;
              importLlama := fun _ => Return tt;
              getLlama := fun _ => Return tt;
              loadModel := fun _ _ => Return 1%N;
              createContext := fun _ _ => Throw (External 12);
              newSession := fun _ _ => Return 3%N;
              prompt_reply := fun _ _ _ => Return (u "{}");
              getAllWindows := fun _ => [7%N];
              showOpenDialog := fun _ => Return (true, None) |} in
  let first := initModel w initial_state in
  let second := initModel w (snd first) in
  fst first = Throw (External 12)
  /\ ready (snd first) = false
  /\ fst second = Throw (External 12)
  /\ loads (since initial_state (snd first)) = 1%nat
  /\ loads (since initial_state (snd second)) = 2%nat.
Proof. cbv zeta. repeat split; vm_compute; reflexivity. Qed.

(** C8 (amended): a call of [initModel] on a session whose model, context
    and chat session are loaded returns at once: it performs no effect, hence
    no load, and leaves the state as it is.  After a call that returns, the
    session is loaded, so a second call made after it is such a call;
    starting from a session that is not loaded, a call that returns and the
    call after it together perform exactly one load. *)
Theorem initModel_idempotent (w : World) (s : state) :
  (ready s = true -> initModel w s = (Return tt, s))
  /\ (forall s1,
         initModel w s = (Return tt, s1) ->
         ready s1 = true
         /\ initModel w s1 = (Return tt, s1)
         /\ loads (since s1 (snd (initModel w s1))) = 0%nat
         /\ (ready s = false ->
             loads (since s (snd (initModel w s1))) = 1%nat)).
Proof.
  split; [apply initModel_ready|].
  intros s1 H.
  destruct (initModel_trace w s s1 (Return tt) H)
    as (evs & Etr & _ & _ & Hok).
  destruct (Hok eq_refl) as (Hready & _ & Hload).
  rewrite (initModel_ready w s1 Hready). cbn [snd].
  split; [exact Hready|]. split; [reflexivity|]. split.
  - rewrite (since_app s1 s1 []); [reflexivity|]. rewrite app_nil_r. reflexivity.
  - intros Hs. rewrite (since_app s s1 evs Etr). exact (Hload Hs).
Qed.

Lemma initModel_idempotent_witness :
  let w := demo_world [] [1%N] (u "{}") in
  let s1 := snd (initModel w initial_state) in
  ready initial_state = false
  /\ initModel w initial_state = (Return tt, s1)
  /\ ready s1 = true
  /\ initModel w s1 = (Return tt, s1)
  /\ loads (since s1 (snd (initModel w s1))) = 0%nat
  /\ loads (since initial_state (snd (initModel w s1))) = 1%nat.
Proof.
  cbv zeta.
  assert (H1 : initModel (demo_world [] [1%N] (u "{}")) initial_state
               = (Return tt,
                  snd (initModel (demo_world [] [1%N] (u "{}")) initial_state)))
    by (vm_compute; reflexivity).
  destruct (initModel_idempotent (demo_world [] [1%N] (u "{}")) initial_state)
    as [_ H].
  destruct (H _ H1) as (Hr & H2 & L0 & L1).
  split; [reflexivity|]. split; [exact H1|]. split; [exact Hr|].
  split; [exact H2|]. split; [exact L0|]. apply L1. reflexivity.
Defined.

(** *** One document *)

Lemma resetChatHistory_inv (s s' : state) (r : completion unit) :
  resetChatHistory s = (r, s') ->
  (r = Throw TypeError /\ s' = s)
  \/ (r = Return tt /\ history s' = []
      /\ trace s' = trace s ++ [EvResetChatHistory]).
Proof.
  unfold resetChatHistory. destruct (chatSession s); intros H;
    injection H as <- <-; auto.
Qed.

Lemma chat_prompt_inv (w : World) (prompt : jsstring) (s s' : state)
      (r : completion jsstring) :
  chat_prompt w prompt s = (r, s') ->
  (r = Throw TypeError /\ s' = s)
  \/ trace s' = trace s ++ [EvPrompt (history s) prompt].
Proof.
  unfold chat_prompt. destruct (chatSession s); [|intros H; injection H as <- <-; auto].
  destruct (prompt_reply w (trace s) (history s) prompt); intros H;
    injection H as <- <-; right; reflexivity.
Qed.

Lemma extract_trace (w : World) (p : path) (s s' : state)
      (r : completion jsstring) :
  extractTextFromResumeFile w p s = (r, s') ->
  history s' = history s
  /\ exists evs, trace s' = trace s ++ evs
                 /\ emitted evs = [] /\ fresh_from false evs = true
                 /\ loads evs = 0%nat.
Proof.
  intros H. unfold extractTextFromResumeFile in H.
  invM; traces; (split; [reflexivity|]);
    (eexists; split; [reflexivity|]); repeat split; reflexivity.
Qed.

(** The effects of one turn of the loop. *)
Lemma process_file_trace (w : World) (p : path) (s s' : state)
      (r : completion unit) :
  process_file w p s = (r, s') ->
  exists evs,
    trace s' = trace s ++ evs
    /\ fresh_from false evs = true
    /\ loads evs = 0%nat
    /\ (forall e, r = Throw e -> emitted evs = [])
    /\ (r = Return tt -> (forall t, getAllWindows w t <> []) ->
        emitted evs = [Some p]).
Proof.
  intros H. unfold process_file in H.
  apply bindM_inv in H as [(text & s1 & Hx & H) | (e & Hx & ->)].
  2:{ apply extract_trace in Hx as (_ & evs & E & Hem & Hfr & Hl).
      exists evs. repeat split; auto. discriminate. }
  apply extract_trace in Hx as (_ & evs & E & Hem & Hfr & Hl).
  apply bindM_inv in H as [([] & s2 & Hreset & H) | (e & Hreset & ->)].
  2:{ apply resetChatHistory_inv in Hreset as [[_ ->] | [Hr _]]; [|discriminate].
      exists evs. repeat split; auto. discriminate. }
  apply resetChatHistory_inv in Hreset as [[Hr _] | (_ & Hh & E2)];
    [discriminate|].
  apply bindM_inv in H as [(reply & s3 & Hp & H) | (e & Hp & ->)].
  2:{ apply chat_prompt_inv in Hp as [[_ ->] | E3].
      - exists (evs ++ [EvResetChatHistory]).
        rewrite E2, E, emitted_app, Hem, loads_app, Hl, <- app_assoc.
        repeat split; try reflexivity; try discriminate.
        apply fresh_from_app; [exact Hfr | reflexivity].
      - exists (evs ++ [EvResetChatHistory; EvPrompt [] (buildPrompt text)]).
        rewrite E3, Hh, E2, E, emitted_app, Hem, loads_app, Hl.
        repeat rewrite <- app_assoc.
        repeat split; try reflexivity; try discriminate.
        apply fresh_from_app; [exact Hfr | reflexivity]. }
  apply chat_prompt_inv in Hp as [[Hr _] | E3]; [discriminate|].
  rewrite parseModelReplyToJson_chain in H.
  invM.
  - subst. cbn [trace log]. rewrite E3, Hh, E2, E.
    repeat rewrite <- app_assoc. cbn [app].
    eexists. split; [reflexivity|].
    rewrite emitted_app, loads_app, Hem, Hl.
    split; [apply fresh_from_app; [exact Hfr | reflexivity]|].
    split; [reflexivity|]. split; [discriminate|].
    intros _ Hw. exfalso.
    match goal with
    | Hnone : [] = getAllWindows _ _ |- _ => exact (Hw _ (eq_sym Hnone))
    end.
  - subst. cbn [trace log]. rewrite E3, Hh, E2, E.
    repeat rewrite <- app_assoc. cbn [app].
    eexists. split; [reflexivity|].
    rewrite emitted_app, loads_app, Hem, Hl.
    split; [apply fresh_from_app; [exact Hfr | reflexivity]|].
    split; [reflexivity|]. split; [discriminate|].
    intros _ _. reflexivity.
Qed.

(** *** The batch *)

Lemma for_of_trace (w : World) (l : list path) :
  forall s r s',
    for_of l (process_file w) s = (r, s') ->
    exists evs,
      trace s' = trace s ++ evs
      /\ fresh_from false evs = true
      /\ loads evs = 0%nat
      /\ (r = Return tt -> (forall t, getAllWindows w t <> []) ->
          emitted evs = map Some l).
Proof.
  induction l as [|p l IH]; intros s r s' H; simpl in H.
  - apply ret_inv in H as [-> ->]. exists []. rewrite app_nil_r. auto.
  - apply bindM_inv in H as [([] & s1 & Hp & H) | (e & Hp & ->)].
    + apply process_file_trace in Hp as (e1 & E1 & F1 & L1 & _ & S1).
      apply IH in H as (e2 & E2 & F2 & L2 & S2).
      exists (e1 ++ e2). rewrite E2, E1, app_assoc, loads_app, L1, L2.
      repeat split; auto.
      * apply fresh_from_app; assumption.
      * intros Hr Hw. rewrite emitted_app, S1, S2 by auto. reflexivity.
    + apply process_file_trace in Hp as (e1 & E1 & F1 & L1 & _ & _).
      exists e1. repeat split; auto. discriminate.
Qed.

(** A failing document ends the loop: the documents after it are not
    started. *)
Lemma for_of_stops (w : World) (pre : list path) (p : path) (post : list path)
      (e : exn) :
  forall s s1 s2,
    for_of pre (process_file w) s = (Return tt, s1) ->
    process_file w p s1 = (Throw e, s2) ->
    for_of (pre ++ p :: post) (process_file w) s = (Throw e, s2).
Proof.
  induction pre as [|q pre IH]; intros s s1 s2 Hpre Hp; simpl in *.
  - apply ret_inv in Hpre as [_ <-]. unfold bindM. rewrite Hp. reflexivity.
  - apply bindM_inv in Hpre as [([] & s0 & Hq & Hpre) | (x & _ & Hx)];
      [|discriminate].
    unfold bindM at 1. rewrite Hq. eapply IH; eassumption.
Qed.

Lemma ensure_ready (w : World) (s : state) :
  (if negb (ready s) then initModel w s else (Return tt, s)) = initModel w s.
Proof.
  destruct (ready s) eqn:Hr; simpl; [|reflexivity].
  rewrite initModel_ready by exact Hr. reflexivity.
Qed.

Lemma run_batch_trace (w : World) (l : list path) (s s' : state)
      (r : completion value) :
  run_batch w l s = (r, s') ->
  exists evs,
    trace s' = trace s ++ evs
    /\ fresh_from false evs = true
    /\ (forall v, r = Return v -> (forall t, getAllWindows w t <> []) ->
                  emitted evs = map Some l).
Proof.
  intros H. unfold run_batch in H.
  apply bindM_inv in H as [([] & s0 & H0 & H) | (e & H0 & ->)];
    rewrite ensure_ready in H0;
    apply initModel_trace in H0 as (e0 & E0 & S0 & F0 & _).
  2:{ exists e0. repeat split; auto. discriminate. }
  apply bindM_inv in H as [([] & s1 & H1 & H) | (e & H1 & ->)];
    apply for_of_trace in H1 as (e1 & E1 & F1 & _ & S1).
  2:{ exists (e0 ++ e1). rewrite E1, E0, app_assoc.
      repeat split; [apply fresh_from_app; assumption | discriminate]. }
  apply ret_inv in H as [-> ->].
  exists (e0 ++ e1). rewrite E1, E0, app_assoc.
  repeat split; [apply fresh_from_app; assumption|].
  intros v _ Hw. rewrite emitted_app, S0, S1 by auto. reflexivity.
Qed.

Lemma handler_trace (w : World) (arg : option (list path)) (s s' : state)
      (r : completion value) :
  parse_resume_pdf w arg s = (r, s') ->
  exists evs, trace s' = trace s ++ evs /\ fresh_from false evs = true.
Proof.
  intros H. unfold parse_resume_pdf in H.
  assert (Hbatch : forall l s0 s1 r1,
             run_batch w l s0 = (r1, s1) ->
             exists evs, trace s1 = trace s0 ++ evs /\ fresh_from false evs = true).
  { intros l s0 s1 r1 Hb. apply run_batch_trace in Hb as (evs & E & F & _).
    eauto. }
  assert (Hdialog : forall s0 s1 r1,
             (bindM (call (showOpenDialog w) EvShowOpenDialog)
                    (fun d => match d with
                              | (false, Some (p :: rest)) => run_batch w (p :: rest)
                              | _ => ret (canceled_result true)
                              end)) s0 = (r1, s1) ->
             exists evs, trace s1 = trace s0 ++ evs /\ fresh_from false evs = true).
  { intros s0 s1 r1 Hd.
    apply bindM_inv in Hd as [(d & s2 & Hc & Hd) | (e & Hc & ->)];
      apply call_inv in Hc as [_ ->].
    2:{ exists [EvShowOpenDialog]. auto. }
    assert (Hquiet : forall v, ret v (log EvShowOpenDialog s0) = (r1, s1) ->
              exists evs, trace s1 = trace s0 ++ evs /\ fresh_from false evs = true).
    { intros v Hv. apply ret_inv in Hv as [_ ->]. exists [EvShowOpenDialog]. auto. }
    destruct d as [[] [[|p rest]|]]; eauto.
    apply Hbatch in Hd as (evs & E & F).
    exists (EvShowOpenDialog :: evs). cbn [trace log] in E.
    rewrite E, <- app_assoc. split; [reflexivity | exact F]. }
  apply try_catchM_inv in H as [(v & H & ->) | (e & s1 & H & Hh)].
  - destruct arg as [[|p rest]|]; eauto.
  - apply bindM_inv in Hh as [([] & s2 & He & Ht) | (x & He & _)];
      apply emit_inv in He as [He ->]; [|discriminate].
    apply throw_inv in Ht as [_ ->].
    assert (Hs1 : exists evs, trace s1 = trace s ++ evs
                              /\ fresh_from false evs = true)
      by (destruct arg as [[|p rest]|]; eauto).
    destruct Hs1 as (evs & E & F).
    exists (evs ++ [EvConsoleError]). cbn [trace log]. rewrite E, app_assoc.
    split; [reflexivity|]. apply fresh_from_app; [exact F | reflexivity].
Qed.

(** *** C1 *)

(** In a batch of three where the second file cannot be read, the handler
    throws the read error: the batch fails, only the first document has a
    result event and the third is never read nor submitted to the model. *)
Lemma second_of_three_fails :
  let w := demo_world [u "b.docx"] [7%N] (u "{}") in
  let out := parse_resume_pdf w (Some [u "a.pdf"; u "b.docx"; u "c.pdf"])
                              initial_state in
  fst out = Throw (External 2)
  /\ emitted (trace (snd out)) = [Some (u "a.pdf")]
  /\ List.length (prompts (trace (snd out))) = 1%nat
  /\ ~ In (EvReadFile (u "c.pdf")) (trace (snd out)).
Proof.
  cbv zeta. split; [vm_compute; reflexivity|].
  split; [vm_compute; reflexivity|]. split; [vm_compute; reflexivity|].
  vm_compute. intros H.
  repeat (destruct H as [H|H]; [discriminate H|]). exact H.
Qed.

(** C1 (amended): an error raised while a document is processed is not
    caught per document: the loop stops there, the handler logs the error and
    rethrows it, so the batch fails with that error.  The documents before
    the failing one have been processed and keep their result events; the
    failing document and those after it have none: the final state is the
    one in which the failing document stopped, plus the error log. *)
Theorem document_failure_aborts_batch (w : World) (pre : list path) (p : path)
        (post : list path) (s s0 s1 s2 : state) (e : exn) :
  initModel w s = (Return tt, s0) ->
  for_of pre (process_file w) s0 = (Return tt, s1) ->
  process_file w p s1 = (Throw e, s2) ->
  parse_resume_pdf w (Some (pre ++ p :: post)) s
  = (Throw e, log EvConsoleError s2)
  /\ emitted (since s (log EvConsoleError s2)) = emitted (since s0 s1).
Proof.
  intros H0 Hpre Hp.
  pose proof (for_of_stops w pre p post e s0 s1 s2 Hpre Hp) as Hloop.
  split.
  - unfold parse_resume_pdf.
    assert (Hb : run_batch w (pre ++ p :: post) s = (Throw e, s2)).
    { unfold run_batch, bindM at 1. rewrite ensure_ready, H0.
      unfold bindM. rewrite Hloop. reflexivity. }
    destruct (pre ++ p :: post) as [|q l] eqn:El;
      [destruct pre; discriminate|].
    unfold try_catchM. rewrite Hb. reflexivity.
  - apply initModel_trace in H0 as (e0 & E0 & S0 & _).
    apply for_of_trace in Hpre as (e1 & E1 & _).
    apply process_file_trace in Hp as (e2 & E2 & _ & _ & S2 & _).
    rewrite (since_app s0 s1 e1 E1).
    rewrite (since_app s (log EvConsoleError s2) (e0 ++ e1 ++ e2 ++ [EvConsoleError])).
    + rewrite !emitted_app, S0, (S2 e eq_refl). simpl. rewrite app_nil_r.
      reflexivity.
    + cbn [trace log]. rewrite E2, E1, E0, <- !app_assoc. reflexivity.
Qed.

Lemma document_failure_aborts_batch_witness :
  let w := demo_world [u "b.docx"] [7%N] (u "{}") in
  let s0 := snd (initModel w initial_state) in
  let s1 := snd (process_file w (u "a.pdf") s0) in
  let s2 := snd (process_file w (u "b.docx") s1) in
  parse_resume_pdf w (Some ([u "a.pdf"] ++ u "b.docx" :: [u "c.pdf"]))
                   initial_state
  = (Throw (External 2), log EvConsoleError s2)
  /\ emitted (since initial_state (log EvConsoleError s2))
     = emitted (since s0 s1).
Proof.
  cbv zeta.
  apply document_failure_aborts_batch with
    (s0 := snd (initModel (demo_world [u "b.docx"] [7%N] (u "{}")) initial_state));
    vm_compute; reflexivity.
Defined.

(** *** C2 *)

(** Two batches that do not emit one event per path: the second of two
    files cannot be read (one event, and the batch fails); no window is
    open (the batch completes with no event at all). *)
Lemma fewer_events_than_paths :
  let batch := [u "a.pdf"; u "b.docx"] in
  let failing := parse_resume_pdf (demo_world [u "b.docx"] [7%N] (u "{}"))
                                  (Some batch) initial_state in
  let windowless := parse_resume_pdf (demo_world [] [] (u "{}"))
                                     (Some batch) initial_state in
  emitted (since initial_state (snd failing)) = [Some (u "a.pdf")]
  /\ emitted (since initial_state (snd failing)) <> map Some batch
  /\ fst windowless = Return (canceled_result false)
  /\ emitted (since initial_state (snd windowless)) = [].
Proof.
  cbv zeta. split; [vm_compute; reflexivity|].
  split; [vm_compute; discriminate|].
  split; vm_compute; reflexivity.
Qed.

(** C2 (amended): when the handler completes a non-empty batch of N paths
    without error, and a window is open whenever a result is sent, exactly
    N result events are emitted, the i-th carrying the i-th path, in the
    order of the paths. *)
Theorem batch_events_in_order (w : World) (l : list path) (s s' : state)
        (v : value) :
  l <> [] ->
  (forall t, getAllWindows w t <> []) ->
  parse_resume_pdf w (Some l) s = (Return v, s') ->
  emitted (since s s') = map Some l
  /\ List.length (emitted (since s s')) = List.length l.
Proof.
  intros Hl Hw H.
  assert (E : emitted (since s s') = map Some l).
  { unfold parse_resume_pdf in H.
    destruct l as [|p rest]; [congruence|].
    apply try_catchM_inv in H as [(v' & H & _) | (e & s1 & _ & Hh)].
    - apply run_batch_trace in H as (evs & E & _ & S).
      rewrite (since_app s s' evs E). eapply S; [reflexivity | exact Hw].
    - apply bindM_inv in Hh as [([] & s2 & _ & Ht) | (x & _ & Hx)];
        [|discriminate].
      apply throw_inv in Ht as [Ht _]. discriminate. }
  split; [exact E|]. rewrite E. apply length_map.
Qed.

Lemma batch_events_in_order_witness :
  let w := demo_world [] [7%N] (u "{}") in
  let batch := [u "a.pdf"; u "b.docx"; u "c.pdf"] in
  let s' := snd (parse_resume_pdf w (Some batch) initial_state) in
  emitted (since initial_state s') = map Some batch
  /\ List.length (emitted (since initial_state s')) = List.length batch.
Proof.
  cbv zeta.
  apply (batch_events_in_order
           (demo_world [] [7%N] (u "{}")) [u "a.pdf"; u "b.docx"; u "c.pdf"]
           initial_state
           (snd (parse_resume_pdf (demo_world [] [7%N] (u "{}"))
                                  (Some [u "a.pdf"; u "b.docx"; u "c.pdf"])
                                  initial_state))
           (canceled_result false)).
  - discriminate.
  - intros t. discriminate.
  - vm_compute. reflexivity.
Defined.

(** *** C9 *)

(** C9: in every run of the handler, each prompt submitted to the model
    directly follows a reset of the chat history and is submitted on an
    empty history. *)
Theorem reset_before_every_prompt (w : World) (arg : option (list path))
        (s : state) (pre : list event) (h : list turn) (q : jsstring)
        (post : list event) :
  since s (snd (parse_resume_pdf w arg s)) = pre ++ EvPrompt h q :: post ->
  h = [] /\ exists pre', pre = pre' ++ [EvResetChatHistory].
Proof.
  intros E.
  destruct (parse_resume_pdf w arg s) as [r s'] eqn:H.
  apply handler_trace in H as (evs & Etr & F).
  cbn [snd] in E. rewrite (since_app s s' evs Etr) in E.
  destruct (fresh_from_spec evs false F pre h q post E)
    as [Hh [[_ Hx] | Hpre]]; [discriminate|].
  auto.
Qed.

Lemma reset_before_every_prompt_witness :
  let w := demo_world [] [7%N] (u "{}") in
  let tr := since initial_state
                  (snd (parse_resume_pdf w (Some [u "a.pdf"]) initial_state)) in
  exists pre q post,
    tr = pre ++ EvPrompt [] q :: post
    /\ (@nil turn = [] /\ exists pre', pre = pre' ++ [EvResetChatHistory]).
Proof.
  cbv zeta.
  set (tr := since initial_state
                   (snd (parse_resume_pdf (demo_world [] [7%N] (u "{}"))
                                          (Some [u "a.pdf"]) initial_state))).
  exists (firstn 10 tr), (buildPrompt (u "a.pdf")), (skipn 11 tr).
  assert (E : tr = firstn 10 tr ++ EvPrompt [] (buildPrompt (u "a.pdf"))
                          :: skipn 11 tr)
    by (vm_compute; reflexivity).
  split; [exact E|].
  exact (reset_before_every_prompt
           (demo_world [] [7%N] (u "{}")) (Some [u "a.pdf"]) initial_state
           (firstn 10 tr) [] (buildPrompt (u "a.pdf")) (skipn 11 tr) E).
Defined.

(** * Further properties of the program *)

(** ** File names of the exported rows *)

(** The pieces of a split, joined by the separator, are the string, and
    no piece holds the separator. *)
Lemma split_join (sep : N) (s : jsstring) :
  exists h t,
    split sep s = h :: t
    /\ s = h ++ flat_map (cons sep) t
    /\ Forall (fun x => ~ In sep x) (h :: t).
Proof.
  induction s as [|c r (h & t & E & J & F)].
  - exists [], []. simpl. repeat split. repeat constructor. tauto.
  - simpl. destruct (N.eqb_spec c sep) as [->|Hc].
    + exists [], (h :: t). rewrite E. simpl. split; [reflexivity|].
      split; [congruence|]. constructor; [tauto | exact F].
    + rewrite E. exists (c :: h), t. split; [reflexivity|].
      split; [simpl; congruence|].
      inversion F as [|x l Hh Ht]; subst. constructor; [|exact Ht].
      simpl. intros [Hin|Hin]; [congruence | tauto].
Qed.

Lemma pop_snoc (a : list jsstring) (x : jsstring) : pop (a ++ [x]) = Some x.
Proof.
  induction a as [|y a IH]; [reflexivity|].
  simpl. destruct (a ++ [x]) eqn:E; [destruct a; discriminate | exact IH].
Qed.

(** [X1]: the file name shown in a row is the part of the path after its
    last backslash: it holds no backslash, and what precedes it in the path
    is empty or ends with a backslash. *)
Theorem after_last_backslash_spec (s : jsstring) :
  exists pre,
    s = pre ++ after_last_backslash s
    /\ ~ In c_backslash (after_last_backslash s)
    /\ (pre = [] \/ exists pre', pre = pre' ++ [c_backslash]).
Proof.
  unfold after_last_backslash.
  destruct (split_join c_backslash s) as (h & t & E & J & F).
  rewrite E.
  destruct (exists_last (l := h :: t)) as (a & b & Hab); [discriminate|].
  rewrite Hab, pop_snoc.
  assert (Hb : ~ In c_backslash b).
  { rewrite Forall_forall in F. apply F. rewrite Hab.
    apply in_or_app. right. simpl. auto. }
  destruct a as [|h' a].
  - injection Hab as -> ->. exists []. simpl in J. rewrite app_nil_r in J.
    auto.
  - injection Hab as <- ->.
    exists (h ++ flat_map (cons c_backslash) a ++ [c_backslash]).
    rewrite flat_map_app in J. simpl in J. rewrite app_nil_r in J.
    split; [rewrite J, <- !app_assoc; reflexivity|].
    split; [exact Hb|]. right.
    exists (h ++ flat_map (cons c_backslash) a). rewrite app_assoc. reflexivity.
Qed.

(** [X2]: a path without a backslash is shown whole; a forward slash is
    not a separator. *)
Theorem after_last_backslash_whole (s : jsstring) :
  ~ In c_backslash s -> after_last_backslash s = s.
Proof.
  intros Hs.
  destruct (after_last_backslash_spec s) as (pre & E & _ & [-> | [pre' ->]]).
  - simpl in E. congruence.
  - exfalso. apply Hs. rewrite E. apply in_or_app. left.
    apply in_or_app. right. simpl. auto.
Qed.

Lemma after_last_backslash_whole_witness :
  after_last_backslash (u "/home/li/cv.pdf") = u "/home/li/cv.pdf".
Proof.
  apply after_last_backslash_whole. vm_compute.
  intros H. repeat (destruct H as [H|H]; [discriminate H|]). exact H.
Defined.

(** ** The rows of the exported sheet *)

Lemma get_prop_defined (v : value) (k : jsstring) :
  nullish v = false -> exists x, get_prop v k = Return x.
Proof. destruct v; simpl; try discriminate; eauto. Qed.

Lemma truthy_not_nullish (v : value) : truthy v = true -> nullish v = false.
Proof. destruct v; simpl; congruence. Qed.



Lemma coalesce_keeps (v : value) : nullish v = false -> coalesce v (VStr []) = v.
Proof. destruct v; simpl; congruence. Qed.


Lemma export_row_nullish (toString : value -> completion jsstring) (index : nat)
      (item : value) :
  nullish item = true -> export_row toString index item = Throw TypeError.
Proof. destruct item; simpl; try discriminate; reflexivity. Qed.




(** [X4]: a field of the result that is present and neither [null] nor
    [undefined] is written as it is, also when it is falsy (the number 0, the
    empty string, [false]); absent or [null] it is written as the empty
    string. *)
Theorem export_row_field (toString : value -> completion jsstring) (index : nat)
        (im rm : list (jsstring * value)) (row : Excel.row) :
  obj_get (u "result") im = Some (VObj rm) ->
  export_row toString index (VObj im) = Return row ->
  let cell k := match obj_get k rm with
                | Some v => coalesce v (VStr [])
                | None => VStr []
                end in
  cells row = map cell six_fields
  /\ forall k v, In k six_fields -> obj_get k rm = Some v -> nullish v = false ->
                 cell k = v.
Proof.
  intros Hres Hrow. cbv zeta.
  split.
  - unfold export_row in Hrow. simpl get_prop in Hrow. rewrite Hres in Hrow.
    cbn [bind or_else truthy get_prop] in Hrow.
    destruct (base_name toString _) as [base|e]; cbn [bind] in Hrow;
      [|discriminate].
    injection Hrow as <-. unfold cells, six_fields.
    cbn [Excel.name Excel.gender Excel.age Excel.education Excel.phone
         Excel.email map].
    repeat match goal with
           | |- context [obj_get ?k rm] => destruct (obj_get k rm)
           end; reflexivity.
  - intros k v _ Hk Hv. rewrite Hk. apply coalesce_keeps. exact Hv.
Qed.

Lemma export_row_field_witness :
  let rm := [(u "name", VStr (u "Li Lei")); (u "age", VNum (mkNumber false 0 0));
             (u "phone", VNull)] in
  let im := [(u "filePath", VStr (u "C:\cv\li.pdf")); (u "result", VObj rm)] in
  exists row,
    export_row (fun _ => Throw TypeError) 0 (VObj im) = Return row
    /\ Excel.fileName row = u "1. li.pdf"
    /\ cells row = [VStr (u "Li Lei"); VStr []; VNum (mkNumber false 0 0);
                    VStr []; VStr []; VStr []].
Proof.
  cbv zeta. eexists. split; [vm_compute; reflexivity|].
  split; [vm_compute; reflexivity|].
  refine (eq_trans
            (proj1 (export_row_field
                      (fun _ => Throw TypeError) 0
                      [(u "filePath", VStr (u "C:\cv\li.pdf"));
                       (u "result",
                        VObj [(u "name", VStr (u "Li Lei"));
                              (u "age", VNum (mkNumber false 0 0));
                              (u "phone", VNull)])]
                      [(u "name", VStr (u "Li Lei"));
                       (u "age", VNum (mkNumber false 0 0));
                       (u "phone", VNull)]
                      _ eq_refl eq_refl)) _).
  vm_compute. reflexivity.
Defined.

(** The loop returns exactly when it has built one row per item. *)
Lemma forEach_rows_returns (toString : value -> completion jsstring)
      (items : list value) :
  forall index rows,
    forEach_rows toString index items = Return rows <->
    List.length rows = List.length items
    /\ forall i item,
        nth_error items i = Some item ->
        exists row,
          nth_error rows i = Some row
          /\ export_row toString (index + i) item = Return row.
Proof.
  induction items as [|item items IH]; intros index rows.
  - simpl. split.
    + intros H. injection H as <-. split; [reflexivity|].
      intros [|i] item H; discriminate.
    + intros [L _]. destruct rows; [reflexivity | discriminate].
  - cbn [forEach_rows]. split.
    + destruct (export_row toString index item) as [row|e] eqn:Er;
        cbn [bind]; [|discriminate].
      destruct (forEach_rows toString (S index) items) as [rows'|e] eqn:E;
        cbn [bind]; [|discriminate].
      intros H. injection H as <-.
      apply IH in E as [L Hnth]. split; [simpl; congruence|].
      intros [|i] it Hit.
      * injection Hit as <-. exists row. rewrite Nat.add_0_r. auto.
      * destruct (Hnth i it Hit) as (r' & Hr' & Hx).
        exists r'. split; [exact Hr'|]. rewrite Nat.add_succ_r. exact Hx.
    + intros [L Hnth].
      destruct rows as [|row rows]; [discriminate|].
      destruct (Hnth 0%nat item eq_refl) as (row' & Hrow' & Er).
      injection Hrow' as <-. rewrite Nat.add_0_r in Er. rewrite Er. cbn [bind].
      assert (E : forEach_rows toString (S index) items = Return rows).
      { apply IH. split; [simpl in L; congruence|].
        intros i it Hit. destruct (Hnth (S i) it Hit) as (r' & Hr' & Hx).
        exists r'. split; [exact Hr'|]. rewrite Nat.add_succ_r in Hx. exact Hx. }
      rewrite E. reflexivity.
Qed.

(** The loop throws what the first failing callback throws. *)
Lemma forEach_rows_throws (toString : value -> completion jsstring)
      (pre : list value) :
  forall index item post e,
    (forall i x, nth_error pre i = Some x ->
                 exists row, export_row toString (index + i) x = Return row) ->
    export_row toString (index + List.length pre) item = Throw e ->
    forEach_rows toString index (pre ++ item :: post) = Throw e.
Proof.
  induction pre as [|x pre IH]; intros index item post e Hpre He.
  - simpl in *. rewrite Nat.add_0_r in He. rewrite He. reflexivity.
  - cbn [app forEach_rows].
    destruct (Hpre 0%nat x eq_refl) as [row Er].
    rewrite Nat.add_0_r in Er. rewrite Er. cbn [bind].
    rewrite (IH (S index) item post e); [reflexivity| |].
    + intros i y Hy. destruct (Hpre (S i) y Hy) as [r' Hr'].
      exists r'. rewrite Nat.add_succ_r in Hr'. exact Hr'.
    + cbn [List.length] in He. rewrite Nat.add_succ_r in He. exact He.
Qed.

Lemma forEach_rows_nullish (toString : value -> completion jsstring)
      (items : list value) :
  existsb nullish items = true ->
  forall index, exists e, forEach_rows toString index items = Throw e.
Proof.
  induction items as [|item items IH]; [discriminate|].
  intros Hn index. cbn [forEach_rows].
  destruct (export_row toString index item) as [row|e] eqn:Er; cbn [bind]; [|eauto].
  simpl in Hn. destruct (nullish item) eqn:Hi.
  - rewrite (export_row_nullish toString index item Hi) in Er. discriminate.
  - destruct (IH Hn (S index)) as [e ->]. cbn [bind]. eauto.
Qed.

(** [X5]: the loop returns exactly when every callback returns, and then
    the sheet has one row per item, in the order of the items, the row of
    the i-th item being built from that item alone and numbered i (from 1).
    Otherwise the loop throws what the first failing callback throws; an
    entry that is [null] or [undefined] makes the whole loop throw. *)
Theorem forEach_rows_spec (toString : value -> completion jsstring)
        (items : list value) :
  forall index,
    (forall rows,
        forEach_rows toString index items = Return rows <->
        List.length rows = List.length items
        /\ forall i item,
            nth_error items i = Some item ->
            exists row,
              nth_error rows i = Some row
              /\ export_row toString (index + i) item = Return row)
    /\ (forall pre item post e,
           items = pre ++ item :: post ->
           (forall i x, nth_error pre i = Some x ->
                        exists row, export_row toString (index + i) x = Return row) ->
           export_row toString (index + List.length pre) item = Throw e ->
           forEach_rows toString index items = Throw e)
    /\ (existsb nullish items = true ->
        exists e, forEach_rows toString index items = Throw e).
Proof.
  intros index. split; [apply forEach_rows_returns|]. split.
  - intros pre item post e -> Hpre He.
    apply forEach_rows_throws; assumption.
  - intros Hn. apply forEach_rows_nullish. exact Hn.
Qed.

Lemma forEach_rows_spec_witness :
  let toString := fun v => match v with
                           | VObj _ => Throw TypeError
                           | _ => Return (u "1")
                           end in
  let good := VObj [(u "filePath", VStr (u "a.pdf"))] in
  let bad := VObj [(u "filePath", VObj [(u "toString", VNull)])] in
  forEach_rows toString 0 [good; bad; VNull] = Throw TypeError
  /\ (exists e, forEach_rows toString 0 [good; VNull; bad] = Throw e)
  /\ exists r1 r2,
      forEach_rows toString 0 [good; good] = Return [r1; r2]
      /\ Excel.fileName r1 = u "1. a.pdf" /\ Excel.fileName r2 = u "2. a.pdf".
Proof.
  cbv zeta. split; [|split].
  - match goal with
    | |- forEach_rows ?f 0 [?g; ?b; ?n] = _ =>
      apply (proj1 (proj2 (forEach_rows_spec f [g; b; n] 0)) [g] b [n])
    end.
    + reflexivity.
    + intros [|[|i]] x H; try discriminate.
      injection H as <-. eexists. vm_compute. reflexivity.
    + vm_compute. reflexivity.
  - match goal with
    | |- exists e, forEach_rows ?f 0 ?l = _ =>
      apply (proj2 (proj2 (forEach_rows_spec f l 0)))
    end.
    reflexivity.
  - eexists. eexists. split.
    + match goal with
      | |- forEach_rows ?f 0 ?l = Return ?rs =>
        apply (proj1 (forEach_rows_spec f l 0) rs)
      end.
      split; [reflexivity|].
      intros [|[|[|i]]] x H; try discriminate; injection H as <-;
        eexists; (split; [reflexivity|]); vm_compute; reflexivity.
    + split; vm_compute; reflexivity.
Defined.

(** ** The export handler *)

Lemma written_app (a b : list export_event) : written (a ++ b) = written a ++ written b.
Proof.
  induction a as [|e a IH]; [reflexivity|].
  destruct e; simpl; rewrite IH; reflexivity.
Qed.

(** The handler, outcome by outcome. *)
Lemma export_resume_excel_cases (toString : value -> completion jsstring) (xw : ExportWorld)
      (items : value) (t t' : list export_event) (r : completion value) :
  export_resume_excel toString xw items t = (r, t') ->
  (r = Return export_no_data /\ t' = t
   /\ match items with VArr (_ :: _) => False | _ => True end)
  \/ (r = Return (canceled_result true) /\ t' = t ++ [XShowSaveDialog])
  \/ (exists l p rows,
         items = VArr l /\ p <> []
         /\ showSaveDialog xw t = Return (false, Some p)
         /\ forEach_rows toString 0 l = Return rows
         /\ r = Return (export_done p)
         /\ t' = t ++ [XShowSaveDialog; XRequireExcelJS;
                       XWriteFile p (Excel.mkSheet sheet_title sheet_columns rows)])
  \/ (exists e evs,
         r = Throw e /\ t' = t ++ evs ++ [XConsoleError]
         /\ (written evs = []
             \/ exists l p rows,
                 items = VArr l /\ forEach_rows toString 0 l = Return rows
                 /\ writeFile xw (t ++ [XShowSaveDialog; XRequireExcelJS]) p
                              (Excel.mkSheet sheet_title sheet_columns rows)
                    = Throw e)).
Proof.
  intros H.
  unfold export_resume_excel, try_catchS, bindS, callS, emitS, liftS, retS,
    throwS in H.
  destruct items as [| | | | |[|i rest]|];
    try (injection H as <- <-; left; repeat split; reflexivity).
  destruct (showSaveDialog xw t) as [[canceled [[|c p]|]]|e] eqn:Hd.
  - destruct canceled; injection H as <- <-; right; left; auto.
  - destruct canceled; [injection H as <- <-; right; left; auto|].
    destruct (requireExcelJS xw (t ++ [XShowSaveDialog])) as [[]|e] eqn:Hq.
    + destruct (forEach_rows toString 0 (i :: rest)) as [rows|e] eqn:Hrows.
      * destruct (writeFile xw ((t ++ [XShowSaveDialog]) ++ [XRequireExcelJS])
                            (c :: p)
                            (Excel.mkSheet sheet_title sheet_columns rows))
          as [[]|e] eqn:Hw; injection H as <- <-.
        -- right. right. left. exists (i :: rest), (c :: p), rows.
           rewrite <- !app_assoc.
           repeat split; try reflexivity; try assumption; discriminate.
        -- right. right. right.
           exists e, [XShowSaveDialog; XRequireExcelJS;
                      XWriteFile (c :: p)
                                 (Excel.mkSheet sheet_title sheet_columns rows)].
           split; [reflexivity|].
           split; [rewrite <- !app_assoc; reflexivity|].
           right. exists (i :: rest), (c :: p), rows.
           rewrite <- app_assoc in Hw. auto.
      * injection H as <- <-. right. right. right.
        exists e, [XShowSaveDialog; XRequireExcelJS].
        rewrite <- !app_assoc. auto.
    + injection H as <- <-. right. right. right.
      exists e, [XShowSaveDialog; XRequireExcelJS].
      rewrite <- !app_assoc. auto.
  - destruct canceled; injection H as <- <-; right; left; auto.
  - injection H as <- <-. right. right. right.
    exists e, [XShowSaveDialog]. rewrite <- !app_assoc. auto.
Qed.

(** [X6]: called with anything but a non-empty array, the handler answers
    [{ success: false, message }] at once: no dialog is opened and nothing
    is written. *)
Theorem export_without_items (toString : value -> completion jsstring) (xw : ExportWorld)
        (items : value) (t : list export_event) :
  match items with VArr (_ :: _) => False | _ => True end ->
  export_resume_excel toString xw items t = (Return export_no_data, t).
Proof.
  intros H. destruct items as [| | | | |[|i rest]|]; try reflexivity.
  contradiction.
Qed.

Lemma export_without_items_witness :
  export_resume_excel (fun _ => Throw TypeError) demo_export_world (VArr []) []
  = (Return export_no_data, [])
  /\ export_resume_excel (fun _ => Throw TypeError) demo_export_world VNull []
     = (Return export_no_data, []).
Proof.
  split; apply export_without_items; exact I.
Defined.

(** [X7]: when the handler returns, it has written exactly one file if it
    reports success, at the path the save dialog returned, holding one row
    per item, and no file otherwise (no items, or the dialog was canceled or
    returned no path). *)
Theorem export_reports_what_it_wrote (toString : value -> completion jsstring)
        (xw : ExportWorld) (items v : value) (t t' : list export_event) :
  export_resume_excel toString xw items t = (Return v, t') ->
  exists evs,
    t' = t ++ evs
    /\ ((written evs = []
         /\ (v = export_no_data \/ v = canceled_result true))
        \/ exists l p rows,
            items = VArr l
            /\ showSaveDialog xw t = Return (false, Some p)
            /\ v = export_done p
            /\ written evs = [(p, Excel.mkSheet sheet_title sheet_columns rows)]
            /\ forEach_rows toString 0 l = Return rows
            /\ List.length rows = List.length l).
Proof.
  intros H.
  destruct (export_resume_excel_cases toString xw items t t' (Return v) H)
    as [(Hr & -> & _) | [(Hr & ->) | [(l & p & rows & -> & Hp & Hd & Hrows & Hr & ->)
                                     | (e & evs & Hr & _)]]];
    try discriminate.
  - injection Hr as ->. exists []. rewrite app_nil_r. auto.
  - injection Hr as ->. exists [XShowSaveDialog]. auto.
  - injection Hr as ->. eexists. split; [reflexivity|]. right.
    exists l, p, rows. repeat split; try assumption.
    apply (forEach_rows_returns toString l 0 rows). exact Hrows.
Qed.

Lemma export_reports_what_it_wrote_witness :
  let items := VArr [VObj [(u "filePath", VStr (u "a.pdf"))];
                     VObj [(u "filePath", VStr (u "b.pdf"))]] in
  let out := export_resume_excel (fun _ => Throw TypeError) demo_export_world items [] in
  exists evs,
    snd out = [] ++ evs
    /\ ((written evs = []
         /\ (export_done (u "out.xlsx") = export_no_data
             \/ export_done (u "out.xlsx") = canceled_result true))
        \/ exists l p rows,
            items = VArr l
            /\ showSaveDialog demo_export_world [] = Return (false, Some p)
            /\ export_done (u "out.xlsx") = export_done p
            /\ written evs = [(p, Excel.mkSheet sheet_title sheet_columns rows)]
            /\ forEach_rows (fun _ => Throw TypeError) 0 l = Return rows
            /\ List.length rows = List.length l).
Proof.
  cbv zeta.
  apply (export_reports_what_it_wrote (fun _ => Throw TypeError) demo_export_world).
  vm_compute. reflexivity.
Defined.

(** [X8]: with an entry that is [null] or [undefined] among the items, the
    handler never reports success and never writes a file, whatever the
    dialog answers. *)
Theorem export_null_entry (toString : value -> completion jsstring) (xw : ExportWorld)
        (l : list value) (t : list export_event) :
  existsb nullish l = true ->
  written (snd (export_resume_excel toString xw (VArr l) t)) = written t
  /\ forall p, fst (export_resume_excel toString xw (VArr l) t)
               <> Return (export_done p).
Proof.
  intros Hn.
  destruct (forEach_rows_nullish toString l Hn 0%nat) as [e0 Hthrow].
  destruct (export_resume_excel toString xw (VArr l) t) as [r t'] eqn:H.
  cbn [fst snd].
  destruct (export_resume_excel_cases toString xw (VArr l) t t' r H)
    as [(-> & -> & _) | [(-> & ->) | [(l' & p & rows & El & _ & _ & Hrows & _)
                                     | (e & evs & -> & -> & Hw)]]].
  - split; [reflexivity | discriminate].
  - rewrite written_app. simpl. rewrite app_nil_r.
    split; [reflexivity | discriminate].
  - injection El as <-. rewrite Hthrow in Hrows. discriminate.
  - split; [|discriminate].
    destruct Hw as [Hw | (l' & p & rows & El & Hrows & _)].
    + rewrite !written_app, Hw. simpl. rewrite app_nil_r. reflexivity.
    + injection El as <-. rewrite Hthrow in Hrows. discriminate.
Qed.

Lemma export_null_entry_witness :
  let l := [VObj [(u "filePath", VStr (u "a.pdf"))]; VNull] in
  written (snd (export_resume_excel (fun _ => Throw TypeError) demo_export_world (VArr l) []))
  = written []
  /\ forall p, fst (export_resume_excel (fun _ => Throw TypeError) demo_export_world (VArr l) [])
               <> Return (export_done p).
Proof.
  cbv zeta. apply export_null_entry. reflexivity.
Defined.

(** ** Importing in the renderer *)

Lemma map_blank_results (l : list value) :
  Forall (fun row => snd row = VObj []) (map blank l).
Proof. induction l; simpl; constructor; auto. Qed.

(** [X9]: whatever the main process answers, after [importResumes] the
    table holds at most 10 rows, each with an empty result, and the
    importing flag is off. *)
Theorem importResumes_cap (error_text : exn -> jsstring)
        (res : completion value) (st : rstate) :
  let st' := importResumes error_text (Some res) st in
  (List.length (resumeItems st') <= 10)%nat
  /\ Forall (fun row => snd row = VObj []) (resumeItems st')
  /\ importing st' = false.
Proof.
  cbv zeta. unfold importResumes, import_answer.
  destruct res as [res|e]; cbn [bind]; [|simpl; auto with arith].
  destruct (get_prop res (u "canceled")) as [c|e]; cbn [bind];
    [|simpl; auto with arith].
  destruct (truthy c); [simpl; auto with arith|].
  destruct (get_prop res (u "filePaths")) as [fps|e]; cbn [bind];
    [|simpl; auto with arith].
  destruct (Nat.ltb_spec 10 (List.length match fps with VArr l => l | _ => [] end));
    cbn [resumeItems importing]; [simpl; auto with arith|].
  rewrite length_map. split; [assumption|]. split; [apply map_blank_results|].
  reflexivity.
Qed.

(** [X10]: [importResumes] on the answer of the 'select-resume-files'
    handler: a selection of 1 to 10 files gives one row per file, in the
    order of the dialog, with no error; more than 10 files give an empty
    table and the error message; a canceled or empty selection gives an
    empty table and no error. *)
Theorem import_after_select (error_text : exn -> jsstring) (w : World)
        (s : state) (st : rstate) (canceled : bool) (sel : option (list path)) :
  showOpenDialog w (trace s) = Return (canceled, sel) ->
  let chosen := match sel with
                | Some l => if canceled then [] else l
                | None => []
                end in
  let st' := importResumes error_text (Some (fst (select_resume_files w s))) st in
  if Nat.ltb 10 (List.length chosen)
  then resumeItems st' = [] /\ resumeError st' = msg_too_many
  else resumeItems st' = map (fun p => blank (VStr p)) chosen
       /\ resumeError st' = [].
Proof.
  intros Hd. cbv zeta. unfold path in *.
  unfold select_resume_files, bindM, call. rewrite Hd.
  destruct canceled, sel as [[|p rest]|]; try (split; reflexivity).
  cbn [ret fst]. unfold importResumes, import_answer, selection.
  cbn [bind]. change (get_prop (VObj ?m) ?k)
    with (Return match obj_get k m with Some x => x | None => VUndefined end).
  cbn [bind].
  repeat match goal with
         | |- context [obj_get (u "canceled") ?m] =>
           replace (obj_get (u "canceled") m) with (Some (VBool false))
             by reflexivity
         | |- context [obj_get (u "filePaths") ?m] =>
           replace (obj_get (u "filePaths") m)
             with (Some (VArr (map VStr (p :: rest)))) by reflexivity
         end.
  cbn [truthy]. rewrite length_map.
  destruct (Nat.ltb 10 (List.length (p :: rest))) eqn:Hbig;
    rewrite ?Hbig; cbn [resumeItems resumeError].
  - split; reflexivity.
  - rewrite map_map. split; reflexivity.
Qed.

Lemma import_after_select_witness :
  let w := {| readFile := fun _ _ => Throw (External 2);
              pdf := fun _ _ => Throw (External 2);
              extractRawText := fun _ _ => Throw (External 2);
              extname := posix_extname;
              join := posix_join;
              homedir := fun _ => Return (u "/home/user");
              existsSync := fun _ _ => true;
              mkdirSync := fun _ _ => Return tt;
              importLlama := fun _ => Return tt;
              getLlama := fun _ => Return tt;
              loadModel := fun _ _ => Return 1%N;
              createContext := fun _ _ => Return 2%N;
              newSession := fun _ _ => Return 3%N;
              prompt_reply := fun _ _ _ => Return [];
              getAllWindows := fun _ => [];
              showOpenDialog :=
                fun _ => Return (false, Some [u "a.pdf"; u "b.docx"]) |} in
  let st' := importResumes (fun _ => [])
                           (Some (fst (select_resume_files w initial_state)))
                           (mkRState false false [] []) in
  if Nat.ltb 10 (List.length [u "a.pdf"; u "b.docx"])
  then resumeItems st' = [] /\ resumeError st' = msg_too_many
  else resumeItems st' = map (fun p => blank (VStr p)) [u "a.pdf"; u "b.docx"]
       /\ resumeError st' = [].
Proof.
  cbv zeta.
  refine (import_after_select (fun _ => []) _ initial_state
            (mkRState false false [] []) false
            (Some [u "a.pdf"; u "b.docx"]) _).
  reflexivity.
Defined.

(** ** The result listener of the renderer *)

Lemma findIndex_none {A : Type} (f : A -> bool) (l : list A) :
  findIndex f l = (-1)%Z <-> forallb (fun x => negb (f x)) l = true.
Proof.
  induction l as [|x l IH]; simpl; [tauto|].
  destruct (f x); simpl; [split; discriminate|].
  destruct (Z.eqb_spec (findIndex f l) (-1)) as [E|E].
  - rewrite <- IH. tauto.
  - split; [|tauto]. intros H.
    assert (Hge : forall l', (-1 <= findIndex f l')%Z).
    { induction l' as [|y l' IH']; simpl; [lia|].
      destruct (f y); [lia|].
      destruct (Z.eqb_spec (findIndex f l') (-1)); lia. }
    specialize (Hge l). lia.
Qed.

Lemma findIndex_found {A : Type} (f : A -> bool) (l : list A) :
  findIndex f l <> (-1)%Z ->
  exists pre x post,
    l = pre ++ x :: post /\ f x = true
    /\ forallb (fun y => negb (f y)) pre = true
    /\ Z.to_nat (findIndex f l) = List.length pre.
Proof.
  induction l as [|y l IH]; simpl; [congruence|].
  destruct (f y) eqn:Hy.
  - intros _. exists [], y, l. auto.
  - destruct (Z.eqb_spec (findIndex f l) (-1)) as [E|E]; [congruence|].
    intros _. destruct (IH E) as (pre & x & post & -> & Hx & Hpre & Hn).
    exists (y :: pre), x, post. simpl in *. rewrite Hy, Hpre.
    repeat split; auto.
    assert (0 <= findIndex f (pre ++ x :: post))%Z.
    { assert (Hge : forall l', (-1 <= findIndex f l')%Z).
      { induction l' as [|z l' IH']; simpl; [lia|].
        destruct (f z); [lia|].
        destruct (Z.eqb_spec (findIndex f l') (-1)); lia. }
      specialize (Hge (pre ++ x :: post)). lia. }
    lia.
Qed.

Lemma set_result_at (pre : table) (p old res : value) (post : table) :
  set_result (List.length pre) res (pre ++ (p, old) :: post)
  = pre ++ (p, res) :: post.
Proof.
  induction pre as [|[q r] pre IH]; simpl; [reflexivity|].
  rewrite IH. reflexivity.
Qed.

(** The listener, case by case: the message is ignored, or the first row
    with its path gets its result, or a row is added at the end. *)
Lemma on_item_cases (number_equal : number -> number -> bool) (item : value)
      (t : table) :
  (on_item number_equal item t = Return t
   /\ (truthy item = false
       \/ exists fp, get_prop item (u "filePath") = Return fp
                     /\ truthy fp = false))
  \/ exists fp r,
      get_prop item (u "filePath") = Return fp /\ truthy fp = true
      /\ get_prop item (u "result") = Return r
      /\ ((exists pre x old post,
              t = pre ++ (x, old) :: post
              /\ strict_equal number_equal x fp = true
              /\ forallb (fun row => negb (strict_equal number_equal (fst row) fp))
                         pre = true
              /\ on_item number_equal item t
                 = Return (pre ++ (x, or_else r (VObj [])) :: post))
          \/ (forallb (fun row => negb (strict_equal number_equal (fst row) fp))
                      t = true
              /\ on_item number_equal item t
                 = Return (t ++ [(fp, or_else r (VObj []))]))).
Proof.
  unfold on_item. destruct (truthy item) eqn:Hi; [|left; auto].
  apply truthy_not_nullish in Hi.
  destruct (get_prop_defined item (u "filePath") Hi) as [fp Hfp].
  destruct (get_prop_defined item (u "result") Hi) as [r Hr].
  rewrite Hfp. cbn [bind].
  destruct (truthy fp) eqn:Ht; [|left; eauto].
  right. exists fp, r. rewrite Hr. cbn [bind].
  repeat (split; [reflexivity || assumption|]).
  set (f := fun x : value * value => strict_equal number_equal (fst x) fp).
  destruct (Z.eqb_spec (findIndex f t) (-1)) as [E|E]; cbn [negb].
  - right. split; [apply findIndex_none; exact E | reflexivity].
  - left. destruct (findIndex_found f t E) as (pre & [x old] & post & -> & Hx & Hpre & Hn).
    exists pre, x, old, post. rewrite Hn, set_result_at. auto.
Qed.

(** [X11]: the listener never throws; it keeps every row and the order of
    the rows, and adds at most one row, at the end, only for a truthy path
    that no row has. *)
Theorem on_item_rows (number_equal : number -> number -> bool) (item : value)
        (t : table) :
  exists t',
    on_item number_equal item t = Return t'
    /\ (map fst t' = map fst t
        \/ exists fp,
            map fst t' = map fst t ++ [fp] /\ truthy fp = true
            /\ forallb (fun row => negb (strict_equal number_equal (fst row) fp))
                       t = true).
Proof.
  destruct (on_item_cases number_equal item t)
    as [[E _] | (fp & r & _ & Hfp & _ & [(pre & x & old & post & -> & _ & _ & E)
                                         | (Hno & E)])];
    rewrite E; eexists; (split; [reflexivity|]).
  - left. reflexivity.
  - left. rewrite !map_app. reflexivity.
  - right. exists fp. rewrite map_app. auto.
Qed.

Lemma strict_equal_string (number_equal : number -> number -> bool)
      (x : value) (p : jsstring) :
  strict_equal number_equal x (VStr p)
  = match x with VStr q => str_eqb q p | _ => false end.
Proof. destruct x; reflexivity. Qed.

Lemma str_eqb_refl (p : jsstring) : str_eqb p p = true.
Proof. apply str_eqb_eq. reflexivity. Qed.

Lemma result_of_app_skip (p : jsstring) (number_equal : number -> number -> bool)
      (pre post : table) :
  forallb (fun row => negb (strict_equal number_equal (fst row) (VStr p))) pre = true ->
  result_of p (pre ++ post) = result_of p post.
Proof.
  induction pre as [|[x r] pre IH]; simpl; [reflexivity|].
  intros H. apply andb_true_iff in H as [Hx Hpre].
  rewrite strict_equal_string in Hx.
  destruct x; try (apply IH; exact Hpre).
  apply negb_true_iff in Hx. rewrite Hx. apply IH. exact Hpre.
Qed.

Lemma result_of_app_other (p q : jsstring) (pre post : table) (x r r' : value) :
  (match x with VStr y => str_eqb y q | _ => false end) = false ->
  result_of q (pre ++ (x, r) :: post) = result_of q (pre ++ (x, r') :: post).
Proof.
  intros Hx. induction pre as [|[y s] pre IH]; simpl.
  - destruct x; try reflexivity. rewrite Hx. reflexivity.
  - destruct y; try exact IH. destruct (str_eqb s0 q); [reflexivity | exact IH].
Qed.

(** [X12]: after a message for the file [p] (a non-empty string), the
    table shows for [p] the result of the message, or an empty object when
    that result is falsy, and shows for every other file what it showed
    before. *)
Theorem on_item_result (number_equal : number -> number -> bool)
        (m : list (jsstring * value)) (p : jsstring) (t : table) :
  obj_get (u "filePath") m = Some (VStr p) -> p <> [] ->
  exists t',
    on_item number_equal (VObj m) t = Return t'
    /\ result_of p t'
       = Some (or_else match obj_get (u "result") m with
                       | Some r => r
                       | None => VUndefined
                       end (VObj []))
    /\ forall q, q <> p -> result_of q t' = result_of q t.
Proof.
  intros Hp Hne.
  destruct (on_item_cases number_equal (VObj m) t)
    as [[_ [Hf | (fp & Hfp & Hf)]]
       | (fp & r & Hfp & _ & Hr & Hcase)].
  - discriminate.
  - simpl in Hfp. rewrite Hp in Hfp. injection Hfp as <-.
    destruct p; [congruence | discriminate].
  - simpl in Hfp, Hr. rewrite Hp in Hfp. injection Hfp as <-.
    injection Hr as <-.
    destruct Hcase as [(pre & x & old & post & -> & Hx & Hpre & E) | (Hno & E)];
      rewrite E; eexists; (split; [reflexivity|]).
    + rewrite strict_equal_string in Hx.
      destruct x; try discriminate.
      split.
      * rewrite (result_of_app_skip p number_equal pre _ Hpre).
        simpl. rewrite Hx. reflexivity.
      * intros q Hq. apply result_of_app_other with (p := p).
        apply str_eqb_eq in Hx. subst.
        destruct (str_eqb p q) eqn:Epq; [|reflexivity].
        apply str_eqb_eq in Epq. congruence.
    + split.
      * rewrite (result_of_app_skip p number_equal t _ Hno).
        simpl. rewrite str_eqb_refl. reflexivity.
      * intros q Hq.
        assert (Happ : forall t0, result_of q (t0 ++ [(VStr p, or_else
                   match obj_get (u "result") m with
                   | Some r => r | None => VUndefined end (VObj []))])
                 = result_of q t0).
        { induction t0 as [|[y s] t0 IH]; simpl.
          - destruct (str_eqb p q) eqn:Epq; [|reflexivity].
            apply str_eqb_eq in Epq. congruence.
          - destruct y; try exact IH.
            destruct (str_eqb s0 q); [reflexivity | exact IH]. }
        apply Happ.
Qed.

Lemma on_item_result_witness :
  let m := [(u "filePath", VStr (u "b.docx"));
            (u "result", VObj [(u "name", VStr (u "Li Lei"))])] in
  let t := [blank (VStr (u "a.pdf")); blank (VStr (u "b.docx"))] in
  exists t',
    on_item (fun _ _ => false) (VObj m) t = Return t'
    /\ result_of (u "b.docx") t'
       = Some (or_else match obj_get (u "result") m with
                       | Some r => r
                       | None => VUndefined
                       end (VObj []))
    /\ forall q, q <> u "b.docx" -> result_of q t' = result_of q t.
Proof.
  cbv zeta. apply on_item_result; [reflexivity | discriminate].
Defined.

Lemma distinct_paths (number_equal : number -> number -> bool) (t t' : table) :
  map fst t = map fst t' -> distinct number_equal t = distinct number_equal t'.
Proof.
  revert t'. induction t as [|[x r] t IH]; intros [|[x' r'] t'] H;
    try discriminate; [reflexivity|].
  simpl in H. injection H as -> Ht. simpl.
  rewrite (IH t' Ht). f_equal.
  clear IH. revert t' Ht. induction t as [|[y s] t IH]; intros [|[y' s'] t'] Ht;
    try discriminate; [reflexivity|].
  simpl in Ht. injection Ht as -> Ht. simpl. rewrite (IH t' Ht). reflexivity.
Qed.

Lemma distinct_snoc (number_equal : number -> number -> bool) (t : table)
      (fp r : value) :
  distinct number_equal t = true ->
  forallb (fun row => negb (strict_equal number_equal (fst row) fp)) t = true ->
  distinct number_equal (t ++ [(fp, r)]) = true.
Proof.
  induction t as [|[x s] t IH]; simpl; [reflexivity|].
  intros Hd Hn. apply andb_true_iff in Hd as [Hx Hd].
  apply andb_true_iff in Hn as [Hfp Hn].
  rewrite forallb_app, Hx, (IH Hd Hn). simpl. rewrite Hfp. reflexivity.
Qed.

(** [X13]: if no two rows of the table have paths that are [===], this
    is still so after a message: a message never creates a second row for a
    path. *)
Theorem on_item_distinct (number_equal : number -> number -> bool)
        (item : value) (t t' : table) :
  distinct number_equal t = true ->
  on_item number_equal item t = Return t' ->
  distinct number_equal t' = true.
Proof.
  intros Hd H.
  destruct (on_item_cases number_equal item t)
    as [[E _] | (fp & r & _ & Hfp & _ & [(pre & x & old & post & -> & _ & _ & E)
                                         | (Hno & E)])];
    rewrite E in H; injection H as <-.
  - exact Hd.
  - rewrite <- Hd. apply distinct_paths. rewrite !map_app. reflexivity.
  - apply distinct_snoc; assumption.
Qed.

Lemma on_item_distinct_witness :
  distinct (fun _ _ => false)
           [blank (VStr (u "a.pdf")); blank (VStr (u "b.docx"));
            blank (VStr (u "c.pdf"))] = true.
Proof.
  apply (on_item_distinct
           (fun _ _ => false)
           (VObj [(u "filePath", VStr (u "c.pdf")); (u "result", VNull)])
           [blank (VStr (u "a.pdf")); blank (VStr (u "b.docx"))]);
    reflexivity.
Defined.

Lemma findIndex_at {A : Type} (f : A -> bool) (pre : list A) (x : A)
      (post : list A) :
  forallb (fun y => negb (f y)) pre = true -> f x = true ->
  findIndex f (pre ++ x :: post) = Z.of_nat (List.length pre).
Proof.
  intros Hpre Hx. induction pre as [|y pre IH]; simpl.
  - rewrite Hx. reflexivity.
  - simpl in Hpre. apply andb_true_iff in Hpre as [Hy Hpre].
    apply negb_true_iff in Hy. rewrite Hy, (IH Hpre).
    destruct (Z.eqb_spec (Z.of_nat (List.length pre)) (-1)); lia.
Qed.

(** A message whose path a row has sets the result of the first such row. *)
Lemma on_item_update (number_equal : number -> number -> bool)
      (m : list (jsstring * value)) (p : jsstring) (pre post : table)
      (x old : value) :
  obj_get (u "filePath") m = Some (VStr p) -> p <> [] ->
  strict_equal number_equal x (VStr p) = true ->
  forallb (fun row => negb (strict_equal number_equal (fst row) (VStr p))) pre
  = true ->
  on_item number_equal (VObj m) (pre ++ (x, old) :: post)
  = Return (pre ++ (x, or_else match obj_get (u "result") m with
                               | Some r => r
                               | None => VUndefined
                               end (VObj [])) :: post).
Proof.
  intros Hp Hne Hx Hpre. unfold on_item. cbn [truthy get_prop]. rewrite Hp.
  cbn [bind]. destruct p as [|c p]; [congruence|]. cbn [truthy].
  rewrite (findIndex_at
             (fun row : value * value =>
                strict_equal number_equal (fst row) (VStr (c :: p)))
             pre (x, old) post Hpre Hx).
  destruct (Z.eqb_spec (Z.of_nat (List.length pre)) (-1)); [lia|].
  cbn [negb]. rewrite Nat2Z.id, set_result_at. reflexivity.
Qed.

(** [X14]: a message for a file (a non-empty string path) delivered twice
    leaves the table as delivering it once does. *)
Theorem on_item_twice (number_equal : number -> number -> bool)
        (m : list (jsstring * value)) (p : jsstring) (t t' : table) :
  obj_get (u "filePath") m = Some (VStr p) -> p <> [] ->
  on_item number_equal (VObj m) t = Return t' ->
  on_item number_equal (VObj m) t' = Return t'.
Proof.
  intros Hp Hne H.
  destruct (on_item_cases number_equal (VObj m) t)
    as [[_ [Hf | (fp & Hfp & Hf)]]
       | (fp & r & Hfp & _ & Hr & Hcase)].
  - discriminate.
  - simpl in Hfp. rewrite Hp in Hfp. injection Hfp as <-.
    destruct p; [congruence | discriminate].
  - simpl in Hfp, Hr. rewrite Hp in Hfp. injection Hfp as <-.
    injection Hr as <-.
    destruct Hcase as [(pre & x & old & post & -> & Hx & Hpre & E) | (Hno & E)];
      rewrite E in H; injection H as <-.
    + apply (on_item_update number_equal m p pre post x); assumption.
    + apply (on_item_update number_equal m p t [] (VStr p)); try assumption.
      simpl. apply str_eqb_refl.
Qed.

Lemma on_item_twice_witness :
  let m := [(u "filePath", VStr (u "c.pdf")); (u "result", VBool true)] in
  let t' := [blank (VStr (u "a.pdf")); (VStr (u "c.pdf"), VBool true)] in
  on_item (fun _ _ => false) (VObj m) t' = Return t'.
Proof.
  cbv zeta.
  apply (on_item_twice (fun _ _ => false)
                       [(u "filePath", VStr (u "c.pdf")); (u "result", VBool true)]
                       (u "c.pdf") [blank (VStr (u "a.pdf"))]);
    [reflexivity | discriminate | reflexivity].
Defined.

(** ** More on the batch handler *)

Lemma sent_app (a b : list event) : sent (a ++ b) = sent a ++ sent b.
Proof.
  induction a as [|e a IH]; [reflexivity|].
  destruct e; simpl; rewrite IH; reflexivity.
Qed.

Lemma reads_app (a b : list event) : reads (a ++ b) = reads a ++ reads b.
Proof.
  induction a as [|e a IH]; [reflexivity|].
  destruct e; simpl; rewrite IH; reflexivity.
Qed.

Lemma prompts_app (a b : list event) : prompts (a ++ b) = prompts a ++ prompts b.
Proof.
  induction a as [|e a IH]; [reflexivity|].
  destruct e; simpl; rewrite IH; reflexivity.
Qed.

Lemma normalize_chain_truthy (s : jsstring) : truthy (normalize_chain s) = true.
Proof.
  unfold normalize_chain, first_match, direct_parse, brace_span_parse.
  assert (Hacc : forall text v, accepted text = Some v -> truthy v = true).
  { intros text v. unfold accepted.
    destruct (JSON_parse text) as [x|]; [|discriminate].
    destruct (truthy x) eqn:Hx; [|discriminate].
    intros H. injection H as <-. exact Hx. }
  destruct (accepted s) as [v|] eqn:H1; [eapply Hacc; eassumption|].
  destruct (brace_span (fence_strip s)) as [sl|]; [|reflexivity].
  destruct (accepted sl) as [v|] eqn:H2; [eapply Hacc; eassumption | reflexivity].
Qed.

Lemma same_session_refl (s : state) : same_session s s.
Proof. repeat split. Qed.

Lemma same_session_trans (s s1 s2 : state) :
  same_session s s1 -> same_session s1 s2 -> same_session s s2.
Proof. unfold same_session. intuition congruence. Qed.

Lemma same_session_ready (s s' : state) : same_session s s' -> ready s' = ready s.
Proof. intros (H1 & H2 & H3). unfold ready. rewrite H1, H2, H3. reflexivity. Qed.

Lemma extract_effects (w : World) (p : path) (s s' : state)
      (r : completion jsstring) :
  extractTextFromResumeFile w p s = (r, s') ->
  same_session s s'
  /\ exists evs, trace s' = trace s ++ evs
                 /\ sent evs = [] /\ reads evs = [p] /\ prompts evs = [].
Proof.
  intros H. unfold extractTextFromResumeFile in H.
  invM; traces; (split; [repeat split|]);
    (eexists; split; [reflexivity|]); repeat split; reflexivity.
Qed.

(** One turn of the loop, effect by effect. *)
Lemma process_file_effects (w : World) (p : path) (s s' : state)
      (r : completion unit) :
  process_file w p s = (r, s') ->
  same_session s s'
  /\ exists evs,
      trace s' = trace s ++ evs
      /\ reads evs = [p]
      /\ (sent evs = [] \/ exists v, truthy v = true /\ sent evs = [item p v])
      /\ (r = Return tt ->
          (exists q reply, history s' = [(q, reply)] /\ prompts evs = [q])
          /\ ((forall t, getAllWindows w t <> []) ->
              exists v, truthy v = true /\ sent evs = [item p v])).
Proof.
  intros H. unfold process_file in H.
  apply bindM_inv in H as [(text & s1 & Hx & H) | (e & Hx & ->)];
    apply extract_effects in Hx as (Hs1 & evs & E & Hsent & Hreads & Hpr).
  2:{ split; [exact Hs1|]. exists evs. repeat split; auto; discriminate. }
  unfold resetChatHistory, chat_prompt in H.
  apply bindM_inv in H as [([] & s2 & Hreset & H) | (e & Hreset & ->)];
    destruct (chatSession s1) as [cs|] eqn:Hcs;
    inversion Hreset; subst; clear Hreset.
  2:{ split; [exact Hs1|]. exists evs. repeat split; auto; discriminate. }
  apply bindM_inv in H as [(reply & s3 & Hp & H) | (e & Hp & ->)];
    cbn [chatSession history trace log] in Hp; rewrite ?Hcs in Hp;
    destruct (prompt_reply w (trace s1 ++ [EvResetChatHistory]) []
                           (buildPrompt text)) as [rep|e'];
    inversion Hp; subst; clear Hp.
  2:{ split; [unfold same_session in *;
            cbn [llamaModel llamaContext chatSession log];
            destruct Hs1 as (A & B & C); repeat split; congruence|].
      exists (evs ++ [EvResetChatHistory; EvPrompt [] (buildPrompt text)]).
      cbn [trace log]. rewrite E, <- !app_assoc, sent_app, reads_app, Hsent, Hreads.
      repeat split; auto; discriminate. }
  rewrite parseModelReplyToJson_chain in H.
  invM; subst; cbn [trace log llamaModel llamaContext chatSession history];
    (split; [unfold same_session in *;
            cbn [llamaModel llamaContext chatSession log];
            destruct Hs1 as (A & B & C); repeat split; congruence|]).
  - exists (evs ++ [EvResetChatHistory; EvPrompt [] (buildPrompt text);
                    EvConsoleLog; EvGetAllWindows]).
    rewrite E, <- !app_assoc, sent_app, reads_app, prompts_app, Hsent, Hreads, Hpr.
    split; [reflexivity|]. split; [reflexivity|]. split; [left; reflexivity|].
    intros _. split; [eexists; eexists; split; reflexivity|].
    intros Hw. exfalso.
    match goal with
    | Hnone : [] = getAllWindows _ _ |- _ => exact (Hw _ (eq_sym Hnone))
    end.
  - eexists (evs ++ [EvResetChatHistory; EvPrompt [] (buildPrompt text);
                     EvConsoleLog; EvGetAllWindows; EvSend _ _ _]).
    rewrite E, <- !app_assoc, sent_app, reads_app, prompts_app, Hsent, Hreads, Hpr.
    split; [reflexivity|]. split; [reflexivity|].
    split; [right; eexists; split; [apply normalize_chain_truthy | reflexivity]|].
    intros _. split; [eexists; eexists; split; reflexivity|].
    intros _. eexists. split; [apply normalize_chain_truthy | reflexivity].
Qed.

Lemma payload_of_mono (l l' : list path) (payload : value) :
  incl l l' -> payload_of l payload -> payload_of l' payload.
Proof. intros Hi (p & v & Hp & Hv & E). exists p, v. auto. Qed.

Lemma for_of_effects (w : World) (l : list path) :
  forall s r s',
    for_of l (process_file w) s = (r, s') ->
    same_session s s'
    /\ exists evs,
        trace s' = trace s ++ evs
        /\ Forall (payload_of l) (sent evs)
        /\ (r = Return tt ->
            reads evs = l
            /\ List.length (prompts evs) = List.length l
            /\ (l <> [] -> exists q reply, history s' = [(q, reply)])
            /\ ((forall t, getAllWindows w t <> []) ->
                exists vs,
                  List.length vs = List.length l
                  /\ Forall (fun v => truthy v = true) vs
                  /\ sent evs = items_of l vs)).
Proof.
  induction l as [|p l IH]; intros s r s' H; simpl in H.
  - apply ret_inv in H as [-> ->]. split; [apply same_session_refl|].
    exists []. rewrite app_nil_r. split; [reflexivity|]. split; [constructor|].
    intros _. repeat split; try congruence.
    intros _. exists []. repeat split. constructor.
  - apply bindM_inv in H as [([] & s1 & Hp & H) | (e & Hp & ->)];
      apply process_file_effects in Hp as (S1 & e1 & E1 & R1 & P1 & K1).
    + pose proof H as H'. apply IH in H as (S2 & e2 & E2 & P2 & K2).
      split; [eapply same_session_trans; eassumption|].
      exists (e1 ++ e2). rewrite E2, E1, app_assoc. split; [reflexivity|].
      split.
      * rewrite sent_app. apply Forall_app. split.
        -- destruct P1 as [-> | (v & Hv & ->)]; [constructor|].
           constructor; [|constructor]. exists p, v. simpl. auto.
        -- eapply Forall_impl; [|exact P2]. intros a.
           apply payload_of_mono. intros x Hx. simpl. auto.
      * intros Hr.
        destruct (K1 eq_refl) as ((q1 & rep1 & Hh1 & Hq1) & W1).
        destruct (K2 Hr) as (R2 & L2 & H2 & W2).
        rewrite reads_app, prompts_app, length_app, R1, R2, Hq1, L2.
        split; [reflexivity|]. split; [reflexivity|]. split.
        -- intros _. destruct l as [|p' l'].
           ++ simpl in H'. apply ret_inv in H' as [_ ->]. eauto.
           ++ apply H2. discriminate.
        -- intros Hw. destruct (W1 Hw) as (v & Hv & Sv).
           destruct (W2 Hw) as (vs & Lvs & Tvs & Svs).
           exists (v :: vs). rewrite sent_app, Sv, Svs.
           repeat split; [simpl; congruence | constructor; assumption].
    + split; [exact S1|]. exists e1. split; [exact E1|]. split.
      * destruct P1 as [-> | (v & Hv & ->)]; [constructor|].
        constructor; [|constructor]. exists p, v. simpl. auto.
      * discriminate.
Qed.

Lemma initModel_quiet (w : World) (s s' : state) (r : completion unit) :
  initModel w s = (r, s') ->
  exists evs,
    trace s' = trace s ++ evs
    /\ sent evs = [] /\ reads evs = [] /\ prompts evs = []
    /\ (loads evs <= 1)%nat
    /\ (ready s = true -> s' = s /\ evs = [])
    /\ (r = Return tt -> ready s' = true).
Proof.
  intros H. unfold initModel in H.
  destruct (ready s) eqn:Hr.
  { injection H as <- <-. exists []. rewrite app_nil_r.
    repeat split; auto. }
  unfold resolveModelPath, ensureUserModelDir in H.
  invM; traces; (eexists; split; [reflexivity|]);
    repeat split; try reflexivity; try discriminate; cbn; lia.
Qed.

(** The two stages of a batch: making the session ready, then the loop. *)
Lemma run_batch_stages (w : World) (l : list path) (s s' : state)
      (r : completion value) :
  run_batch w l s = (r, s') ->
  (exists e, initModel w s = (Throw e, s') /\ r = Throw e)
  \/ exists s0 r1,
      initModel w s = (Return tt, s0)
      /\ for_of l (process_file w) s0 = (r1, s')
      /\ match r1 with
         | Return _ => r = Return (canceled_result false)
         | Throw e => r = Throw e
         end.
Proof.
  intros H. unfold run_batch in H.
  apply bindM_inv in H as [([] & s0 & H0 & H) | (e & H0 & ->)];
    rewrite ensure_ready in H0; [|left; eauto].
  right.
  apply bindM_inv in H as [([] & s1 & H1 & H) | (e & H1 & ->)].
  - apply ret_inv in H as [-> ->]. exists s0, (Return tt). auto.
  - exists s0, (Throw e). auto.
Qed.

Lemma handler_batch (w : World) (p : path) (rest : list path) (s s' : state)
      (r : completion value) :
  parse_resume_pdf w (Some (p :: rest)) s = (r, s') ->
  (exists v, run_batch w (p :: rest) s = (Return v, s') /\ r = Return v)
  \/ exists e s1, run_batch w (p :: rest) s = (Throw e, s1)
                  /\ r = Throw e /\ s' = log EvConsoleError s1.
Proof.
  intros H. unfold parse_resume_pdf in H.
  apply try_catchM_inv in H as [(v & H & ->) | (e & s1 & H & Hh)];
    [left; eauto|].
  right. apply bindM_inv in Hh as [([] & s2 & He & Ht) | (x & He & _)];
    apply emit_inv in He as [He ->]; [|discriminate].
  apply throw_inv in Ht as [-> ->]. eauto.
Qed.

(** [X15]: a batch that the handler completes has read every file exactly
    once, in the order of the paths, and has submitted exactly one prompt per
    file; the handler answers [{ canceled: false }]. *)
Theorem batch_reads_each_file_once (w : World) (l : list path) (s s' : state)
        (v : value) :
  l <> [] ->
  parse_resume_pdf w (Some l) s = (Return v, s') ->
  v = canceled_result false
  /\ reads (since s s') = l
  /\ List.length (prompts (since s s')) = List.length l.
Proof.
  intros Hl H. destruct l as [|p rest]; [congruence|].
  apply handler_batch in H as [(v' & H & Hv) | (e & s1 & _ & Hr & _)];
    [|discriminate].
  injection Hv as <-.
  apply run_batch_stages in H as [(e & _ & Hr) | (s0 & r1 & H0 & Hloop & Hr)];
    [discriminate|].
  destruct r1 as [[]|e]; [|discriminate]. injection Hr as ->.
  apply initModel_quiet in H0 as (e0 & E0 & _ & R0 & P0 & _).
  apply for_of_effects in Hloop as (_ & e1 & E1 & _ & K).
  destruct (K eq_refl) as (R1 & L1 & _).
  rewrite (since_app s s' (e0 ++ e1)) by (rewrite E1, E0, app_assoc; reflexivity).
  rewrite reads_app, prompts_app, R0, P0, R1. auto.
Qed.

Lemma batch_reads_each_file_once_witness :
  let w := demo_world [] [] (u "{}") in
  let batch := [u "a.pdf"; u "b.docx"] in
  let s' := snd (parse_resume_pdf w (Some batch) initial_state) in
  canceled_result false = canceled_result false
  /\ reads (since initial_state s') = batch
  /\ List.length (prompts (since initial_state s')) = List.length batch.
Proof.
  cbv zeta.
  apply (batch_reads_each_file_once
           (demo_world [] [] (u "{}")) [u "a.pdf"; u "b.docx"] initial_state
           (snd (parse_resume_pdf (demo_world [] [] (u "{}"))
                                  (Some [u "a.pdf"; u "b.docx"]) initial_state))).
  - discriminate.
  - vm_compute. reflexivity.
Defined.

(** [X16]: after a batch that the handler completes, the session is
    loaded and its history holds exactly one turn; the batch has loaded the
    model at most once, and not at all if the session was loaded before. *)
Theorem batch_leaves_session (w : World) (l : list path) (s s' : state)
        (v : value) :
  l <> [] ->
  parse_resume_pdf w (Some l) s = (Return v, s') ->
  ready s' = true
  /\ (exists q reply, history s' = [(q, reply)])
  /\ (loads (since s s') <= 1)%nat
  /\ (ready s = true -> loads (since s s') = 0%nat).
Proof.
  intros Hl H. destruct l as [|p rest]; [congruence|].
  apply handler_batch in H as [(v' & H & Hv) | (e & s1 & _ & Hr & _)];
    [|discriminate].
  apply run_batch_stages in H as [(e & _ & Hr) | (s0 & r1 & H0 & Hloop & Hr)];
    [discriminate|].
  destruct r1 as [[]|e]; [|discriminate].
  apply initModel_quiet in H0 as (e0 & E0 & _ & _ & _ & L0 & W0 & Hready).
  pose proof Hloop as Hloop'.
  apply for_of_effects in Hloop as (Hsame & e1 & E1 & _ & K).
  apply for_of_trace in Hloop' as (e1' & E1' & _ & L1 & _).
  assert (e1' = e1) by (rewrite E1 in E1'; eapply app_inv_head; eauto).
  subst e1'.
  destruct (K eq_refl) as (_ & _ & Hh & _).
  rewrite (since_app s s' (e0 ++ e1)) by (rewrite E1, E0, app_assoc; reflexivity).
  rewrite loads_app, L1, Nat.add_0_r.
  split; [rewrite (same_session_ready s0 s' Hsame); auto|].
  split; [apply Hh; discriminate|]. split; [exact L0|].
  intros Hr0. destruct (W0 Hr0) as [_ ->]. reflexivity.
Qed.

Lemma batch_leaves_session_witness :
  let w := demo_world [] [7%N] (u "{}") in
  let s1 := snd (parse_resume_pdf w (Some [u "a.pdf"]) initial_state) in
  let s2 := snd (parse_resume_pdf w (Some [u "b.docx"; u "c.pdf"]) s1) in
  ready s1 = true
  /\ ready s2 = true
  /\ (exists q reply, history s2 = [(q, reply)])
  /\ (loads (since s1 s2) <= 1)%nat
  /\ (ready s1 = true -> loads (since s1 s2) = 0%nat).
Proof.
  cbv zeta. split; [vm_compute; reflexivity|].
  apply (batch_leaves_session
           (demo_world [] [7%N] (u "{}")) [u "b.docx"; u "c.pdf"]
           (snd (parse_resume_pdf (demo_world [] [7%N] (u "{}"))
                                  (Some [u "a.pdf"]) initial_state))
           (snd (parse_resume_pdf
                   (demo_world [] [7%N] (u "{}")) (Some [u "b.docx"; u "c.pdf"])
                   (snd (parse_resume_pdf (demo_world [] [7%N] (u "{}"))
                                          (Some [u "a.pdf"]) initial_state))))
           (canceled_result false)).
  - discriminate.
  - vm_compute. reflexivity.
Defined.

(** [X17]: when the session cannot be made ready, the handler logs the
    error and throws it before any file is read: nothing is read, prompted or
    sent. *)
Theorem init_failure_fails_batch (w : World) (p : path) (rest : list path)
        (s s0 : state) (e : exn) :
  initModel w s = (Throw e, s0) ->
  parse_resume_pdf w (Some (p :: rest)) s = (Throw e, log EvConsoleError s0)
  /\ reads (since s (log EvConsoleError s0)) = []
  /\ prompts (since s (log EvConsoleError s0)) = []
  /\ sent (since s (log EvConsoleError s0)) = [].
Proof.
  intros H0. split.
  - unfold parse_resume_pdf, try_catchM, run_batch, bindM.
    rewrite ensure_ready, H0. reflexivity.
  - apply initModel_quiet in H0 as (e0 & E0 & S0 & R0 & P0 & _).
    rewrite (since_app s (log EvConsoleError s0) (e0 ++ [EvConsoleError]))
      by (cbn [trace log]; rewrite E0, app_assoc; reflexivity).
    rewrite reads_app, prompts_app, sent_app, S0, R0, P0. auto.
Qed.

Lemma init_failure_fails_batch_witness :
  let w := {| readFile := fun _ p => Return p;
              pdf := fun _ b => Return (Some b);
              extractRawText := fun _ b => Return (Some b);
              extname := posix_extname;
              join := posix_join;
              homedir := fun _ => Return (u "/home/user");
              existsSync := fun _ _ => false;
              mkdirSync := fun _ _ => Throw (External 13);
              importLlama := fun _ => Return tt;
              getLlama := fun _ => Return tt;
              loadModel := fun _ _ => Return 1%N;
              createContext := fun _ _ => Return 2%N;
              newSession := fun _ _ => Return 3%N;
              prompt_reply := fun _ _ _ => Return (u "{}");
              getAllWindows := fun _ => [7%N];
              showOpenDialog := fun _ => Return (true, None) |} in
  let s0 := snd (initModel w initial_state) in
  parse_resume_pdf w (Some (u "a.pdf" :: [])) initial_state
  = (Throw ModelFileMissing, log EvConsoleError s0)
  /\ reads (since initial_state (log EvConsoleError s0)) = []
  /\ prompts (since initial_state (log EvConsoleError s0)) = []
  /\ sent (since initial_state (log EvConsoleError s0)) = [].
Proof.
  cbv zeta. apply init_failure_fails_batch. vm_compute. reflexivity.
Defined.

(** [X18]: called without paths (no array, or an empty one), the handler
    opens the file dialog.  If the dialog is canceled or returns no file, the
    handler answers [{ canceled: true }] and does nothing else: the session
    is not touched.  Otherwise it goes on exactly as if it had been called
    with the files of the dialog. *)
Theorem handler_without_paths (w : World) (arg : option (list path))
        (s : state) (canceled : bool) (sel : option (list path)) :
  match arg with Some (_ :: _) => False | _ => True end ->
  showOpenDialog w (trace s) = Return (canceled, sel) ->
  parse_resume_pdf w arg s
  = match (if canceled then None else sel) with
    | Some (p :: rest) =>
      parse_resume_pdf w (Some (p :: rest)) (log EvShowOpenDialog s)
    | _ => (Return (canceled_result true), log EvShowOpenDialog s)
    end.
Proof.
  intros Harg Hd.
  assert (E : parse_resume_pdf w arg s
              = try_catchM
                  (bindM (call (showOpenDialog w) EvShowOpenDialog)
                         (fun d =>
                            match d with
                            | (false, Some (p :: rest)) => run_batch w (p :: rest)
                            | _ => ret (canceled_result true)
                            end))
                  (fun err => bindM (emit EvConsoleError) (fun _ => throw err)) s).
  { destruct arg as [[|p rest]|]; [reflexivity | contradiction | reflexivity]. }
  rewrite E. unfold try_catchM at 1, bindM at 1, call. rewrite Hd.
  destruct canceled, sel as [[|p rest]|]; reflexivity.
Qed.

Lemma handler_without_paths_witness :
  parse_resume_pdf (demo_world [] [7%N] (u "{}")) (Some []) initial_state
  = (Return (canceled_result true), log EvShowOpenDialog initial_state).
Proof.
  exact (handler_without_paths (demo_world [] [7%N] (u "{}")) (Some [])
                               initial_state true None I eq_refl).
Defined.

(** ** More on the model session *)

Lemma loads_since (s s' : state) (evs : list event) :
  trace s' = trace s ++ evs -> loads evs = 0%nat -> loads (since s s') = 0%nat.
Proof. intros E L. rewrite (since_app s s' evs E). exact L. Qed.

(** [X19]: [ensureUserModelDir] throws only what [os.homedir()] throws,
    and then it has done nothing.  When [os.homedir()] returns, the path of
    the model directory under that home directory is returned in every case:
    an error while creating the directory is logged and ignored.  The
    directory is created exactly when it does not exist. *)
Theorem ensureUserModelDir_outcome (w : World) (s : state) :
  match homedir w (trace s) with
  | Throw e => ensureUserModelDir w s = (Throw e, s)
  | Return home =>
    let modelDir := join w home (u "jianli-jiexi-models") in
    fst (ensureUserModelDir w s) = Return modelDir
    /\ (existsSync w (trace s) modelDir = true ->
        since s (snd (ensureUserModelDir w s)) = [EvExistsSync modelDir])
    /\ (existsSync w (trace s) modelDir = false ->
        since s (snd (ensureUserModelDir w s))
        = EvExistsSync modelDir :: EvMkdirSync modelDir
          :: match mkdirSync w (trace s ++ [EvExistsSync modelDir]) modelDir with
             | Return _ => []
             | Throw _ => [EvConsoleError]
             end)
  end.
Proof.
  unfold ensureUserModelDir, bindM, ask, try_catchM, call, emit, ret.
  destruct (homedir w (trace s)) as [home|e]; [|reflexivity].
  cbv zeta. cbn [trace log].
  destruct (existsSync w (trace s) _) eqn:Hex; cbn [negb fst snd].
  - split; [reflexivity|]. split; [|discriminate].
    intros _. apply since_app. reflexivity.
  - destruct (mkdirSync w _ _) as [[]|e]; cbn [fst snd];
      (split; [reflexivity|]); (split; [discriminate|]);
      intros _; apply since_app; cbn [trace log];
      rewrite <- ?app_assoc; reflexivity.
Qed.

Lemma ensureUserModelDir_outcome_witness :
  let w := {| readFile := fun _ p => Return p;
              pdf := fun _ b => Return (Some b);
              extractRawText := fun _ b => Return (Some b);
              extname := posix_extname;
              join := posix_join;
              homedir := fun _ => Return (u "/home/user");
              existsSync := fun _ _ => false;
              mkdirSync := fun _ _ => Throw (External 13);
              importLlama := fun _ => Return tt;
              getLlama := fun _ => Return tt;
              loadModel := fun _ _ => Return 1%N;
              createContext := fun _ _ => Return 2%N;
              newSession := fun _ _ => Return 3%N;
              prompt_reply := fun _ _ _ => Return (u "{}");
              getAllWindows := fun _ => [7%N];
              showOpenDialog := fun _ => Return (true, None) |} in
  fst (ensureUserModelDir w initial_state)
  = Return (u "/home/user/jianli-jiexi-models")
  /\ since initial_state (snd (ensureUserModelDir w initial_state))
     = [EvExistsSync (u "/home/user/jianli-jiexi-models");
        EvMkdirSync (u "/home/user/jianli-jiexi-models");
        EvConsoleError].
Proof.
  cbv zeta.
  match goal with
  | |- fst (ensureUserModelDir ?w _) = _ /\ _ =>
    pose proof (ensureUserModelDir_outcome w initial_state) as H
  end.
  cbv beta iota zeta delta [homedir] in H.
  destruct H as (H1 & _ & H3). split; [exact H1|]. exact (H3 eq_refl).
Defined.

Lemma initModel_missing_run (w : World) (s : state) :
  ready s = false ->
  (forall t home,
      existsSync w t (join w (join w home (u "jianli-jiexi-models"))
                           (u "Qwen3-4B-IQ4_NL.gguf")) = false) ->
  exists s' evs,
    initModel w s
    = (Throw match importLlama w (trace s) with
             | Throw e => e
             | Return _ =>
               match homedir w (trace s ++ [EvImportLlama]) with
               | Throw e => e
               | Return _ => ModelFileMissing
               end
             end, s')
    /\ same_session s s'
    /\ trace s' = trace s ++ evs /\ loads evs = 0%nat.
Proof.
  intros Hr Hmiss.
  unfold initModel. rewrite Hr. unfold bindM at 1, call at 1.
  destruct (importLlama w (trace s)) as [[]|e1].
  2:{ exists (log EvImportLlama s), [EvImportLlama]. repeat split. }
  unfold resolveModelPath, ensureUserModelDir.
  unfold bindM at 1, bindM at 1, bindM at 1, ask.
  cbn [trace log].
  destruct (homedir w (trace s ++ [EvImportLlama])) as [home|e2].
  2:{ exists (log EvImportLlama s), [EvImportLlama]. repeat split. }
  unfold bindM, try_catchM, call, emit, ret, throw. cbn [trace log].
  destruct (existsSync w _ (join w home (u "jianli-jiexi-models")));
    cbn [negb]; [|destruct (mkdirSync w _ _) as [[]|e3]];
    rewrite Hmiss; cbn [negb];
    eexists; eexists; (split; [reflexivity|]); (split; [repeat split|]);
    cbn [trace log]; rewrite <- ?app_assoc; (split; [reflexivity|]);
    reflexivity.
Qed.

(** [X20]: when the model file is not in the model directory, whatever
    the home directory is, [initModel] on a session that is not loaded always
    throws, whether or not the directory could be created: the error of the
    dynamic import if the import fails, else the error of [os.homedir()] if
    it fails, else the missing-model error.  In every case no model is loaded
    and the session variables are left as they were. *)
Theorem initModel_missing_model (w : World) (s : state) :
  ready s = false ->
  (forall t home,
      existsSync w t (join w (join w home (u "jianli-jiexi-models"))
                           (u "Qwen3-4B-IQ4_NL.gguf")) = false) ->
  fst (initModel w s)
  = Throw match importLlama w (trace s) with
          | Throw e => e
          | Return _ =>
            match homedir w (trace s ++ [EvImportLlama]) with
            | Throw e => e
            | Return _ => ModelFileMissing
            end
          end
  /\ same_session s (snd (initModel w s))
  /\ loads (since s (snd (initModel w s))) = 0%nat.
Proof.
  intros Hr Hmiss.
  destruct (initModel_missing_run w s Hr Hmiss) as (s' & evs & -> & Hs & E & L).
  cbn [fst snd]. split; [reflexivity|]. split; [exact Hs|].
  exact (loads_since s s' evs E L).
Qed.

Lemma initModel_missing_model_witness :
  let w := {| readFile := fun _ p => Return p;
              pdf := fun _ b => Return (Some b);
              extractRawText := fun _ b => Return (Some b);
              extname := posix_extname;
              join := posix_join;
              homedir := fun _ => Return (u "/home/user");
              existsSync := fun _ _ => false;
              mkdirSync := fun _ _ => Throw (External 13);
              importLlama := fun _ => Return tt;
              getLlama := fun _ => Return tt;
              loadModel := fun _ _ => Return 1%N;
              createContext := fun _ _ => Return 2%N;
              newSession := fun _ _ => Return 3%N;
              prompt_reply := fun _ _ _ => Return (u "{}");
              getAllWindows := fun _ => [7%N];
              showOpenDialog := fun _ => Return (true, None) |} in
  fst (initModel w initial_state) = Throw ModelFileMissing
  /\ same_session initial_state (snd (initModel w initial_state))
  /\ loads (since initial_state (snd (initModel w initial_state))) = 0%nat.
Proof.
  cbv zeta. apply initModel_missing_model; reflexivity.
Defined.

(** ** More on the reply normalizer *)

(** [X21]: on every value, not only on strings, the normalizer returns and
    does not throw, and what it returns is truthy: an object or an array is
    returned as it is, any other value that is not a string is wrapped in
    the sentinel. *)
Theorem normalize_any_value (reply : value) :
  exists v,
    parseModelReplyToJson reply = Return v
    /\ truthy v = true
    /\ match reply with
       | VArr _ | VObj _ => v = reply
       | VStr _ => True
       | _ => v = sentinel reply
       end.
Proof.
  destruct reply as [| |b|n|s|l|m];
    try (eexists; split; [reflexivity|]; split; reflexivity).
  - exists (sentinel (VBool b)). destruct b; repeat split.
  - exists (sentinel (VNum n)). unfold parseModelReplyToJson. simpl.
    destruct (negb (rounds_to_zero n)); repeat split.
  - exists (normalize_chain s). split; [apply parseModelReplyToJson_chain|].
    split; [apply normalize_chain_truthy | exact I].
Qed.

(** ** Files with another extension *)

(** [X22]: a readable file whose extension is neither [.pdf] nor [.docx]
    is not skipped: the model is prompted for it, with an empty resume
    text. *)
Theorem other_extension_still_prompted (w : World) (p : path) (s : state)
        (buf : buffer) :
  readFile w (trace s) p = Return buf ->
  ci_eqb (extname w p) (u ".pdf") = false ->
  ci_eqb (extname w p) (u ".docx") = false ->
  chatSession s <> None ->
  prompts (since s (snd (process_file w p s))) = [buildPrompt []].
Proof.
  intros Hread Hpdf Hdocx Hcs.
  destruct (process_file w p s) as [r s'] eqn:H. cbn [snd].
  unfold process_file, bindM at 1 in H.
  rewrite extractTextFromResumeFile_eq, Hread in H. cbv zeta in H.
  rewrite Hpdf, Hdocx in H.
  unfold bindM at 1, resetChatHistory in H. cbn [chatSession log] in H.
  destruct (chatSession s) as [cs|] eqn:Ecs; [|congruence].
  unfold bindM at 1, chat_prompt in H.
  cbn [chatSession history trace log] in H.
  destruct (prompt_reply w _ [] (buildPrompt [])) as [reply|e].
  - rewrite parseModelReplyToJson_chain in H.
    unfold bindM, lift, emit, call, ret in H.
    cbn [trace log llamaModel llamaContext chatSession history] in H.
    destruct (getAllWindows w _) as [|w0 ws]; injection H as _ <-;
      unfold since; cbn [trace log]; rewrite <- !app_assoc;
      rewrite skipn_app, skipn_all, Nat.sub_diag; reflexivity.
  - injection H as _ <-.
    unfold since. cbn [trace log]. rewrite <- !app_assoc.
    rewrite skipn_app, skipn_all, Nat.sub_diag. reflexivity.
Qed.

Lemma other_extension_still_prompted_witness :
  let w := demo_world [] [7%N] (u "{}") in
  let s := snd (initModel w initial_state) in
  prompts (since s (snd (process_file w (u "notes.txt") s))) = [buildPrompt []].
Proof.
  cbv zeta.
  apply (other_extension_still_prompted
           (demo_world [] [7%N] (u "{}")) (u "notes.txt")
           (snd (initModel (demo_world [] [7%N] (u "{}")) initial_state))
           (u "notes.txt")).
  - reflexivity.
  - vm_compute. reflexivity.
  - vm_compute. reflexivity.
  - vm_compute. discriminate.
Defined.

(** ** From the batch to the table of the renderer *)

Lemma item_filePath (p : path) (v : value) :
  get_prop (item p v) (u "filePath") = Return (VStr p)
  /\ get_prop (item p v) (u "result") = Return v.
Proof. split; reflexivity. Qed.

Lemma known_path_found (number_equal : number -> number -> bool) (p : jsstring)
      (t : table) :
  In (VStr p) (map fst t) ->
  forallb (fun row => negb (strict_equal number_equal (fst row) (VStr p))) t
  = false.
Proof.
  induction t as [|[x r] t IH]; simpl; [tauto|].
  intros [-> | Hin].
  - simpl. rewrite str_eqb_refl. reflexivity.
  - rewrite (IH Hin). apply andb_false_r.
Qed.

Lemma deliver_known (number_equal : number -> number -> bool) (l : list path)
      (payloads : list value) :
  Forall (payload_of l) payloads ->
  forall t,
    (forall p, In p l -> In (VStr p) (map fst t)) ->
    exists t', deliver number_equal payloads t = Return t'
               /\ map fst t' = map fst t.
Proof.
  induction 1 as [|payload payloads (p & v & Hp & Hv & ->) _ IH]; intros t Ht.
  - exists t. auto.
  - simpl.
    destruct (on_item_cases number_equal (item p v) t)
      as [[E _] | (fp & r & Hfp & Htr & _ & [(pre & x & old & post & -> & _ & _ & E)
                                            | (Hno & E)])];
      rewrite E; cbn [bind].
    + apply IH. exact Ht.
    + destruct (IH (pre ++ (x, or_else r (VObj [])) :: post)) as (t' & D & M).
      { intros q Hq. specialize (Ht q Hq). rewrite map_app in *. exact Ht. }
      exists t'. split; [exact D|]. rewrite M, !map_app. reflexivity.
    + exfalso. destruct (item_filePath p v) as [Hf _].
      rewrite Hf in Hfp. injection Hfp as <-.
      rewrite (known_path_found number_equal p t (Ht p Hp)) in Hno.
      discriminate.
Qed.

Lemma handler_payloads (w : World) (p : path) (rest : list path) (s s' : state)
      (r : completion value) :
  parse_resume_pdf w (Some (p :: rest)) s = (r, s') ->
  Forall (payload_of (p :: rest)) (sent (since s s'))
  /\ (r <> Return (canceled_result false) -> exists e, r = Throw e)
  /\ (r = Return (canceled_result false) ->
      (forall t, getAllWindows w t <> []) ->
      exists vs,
        List.length vs = List.length (p :: rest)
        /\ Forall (fun v => truthy v = true) vs
        /\ sent (since s s') = items_of (p :: rest) vs).
Proof.
  intros H.
  apply handler_batch in H as [(v & H & ->) | (e & s1 & H & -> & ->)];
    apply run_batch_stages in H as [(e' & H0 & Hr) | (s0 & r1 & H0 & Hloop & Hr)];
    try discriminate;
    apply initModel_quiet in H0 as (e0 & E0 & S0 & _).
  - destruct r1 as [[]|e']; [|discriminate]. injection Hr as ->.
    apply for_of_effects in Hloop as (_ & e1 & E1 & P1 & K).
    rewrite (since_app s s' (e0 ++ e1)) by (rewrite E1, E0, app_assoc; reflexivity).
    rewrite sent_app, S0. cbn [app].
    split; [exact P1|]. split; [congruence|].
    intros _ Hw. destruct (K eq_refl) as (_ & _ & _ & W). exact (W Hw).
  - rewrite (since_app s _ (e0 ++ [EvConsoleError]))
      by (cbn [trace log]; rewrite E0, app_assoc; reflexivity).
    rewrite sent_app, S0. split; [constructor|].
    split; [eauto | discriminate].
  - destruct r1 as [[]|e']; [discriminate|]. injection Hr as ->.
    apply for_of_effects in Hloop as (_ & e1 & E1 & P1 & _).
    rewrite (since_app s _ (e0 ++ e1 ++ [EvConsoleError]))
      by (cbn [trace log]; rewrite E1, E0, <- !app_assoc; reflexivity).
    rewrite !sent_app, S0. cbn [app sent]. rewrite app_nil_r.
    split; [exact P1|]. split; [eauto | discriminate].
Qed.

(** [X23]: whatever happens to a batch, failure included, delivering its
    result events to the listener of a table made of the files of the batch
    never throws and neither adds, removes nor reorders rows. *)
Theorem table_keeps_its_rows (number_equal : number -> number -> bool)
        (w : World) (p : path) (rest : list path) (s : state) :
  exists t',
    deliver number_equal
            (sent (since s (snd (parse_resume_pdf w (Some (p :: rest)) s))))
            (map (fun q => blank (VStr q)) (p :: rest))
    = Return t'
    /\ map fst t' = map VStr (p :: rest).
Proof.
  destruct (parse_resume_pdf w (Some (p :: rest)) s) as [r s'] eqn:H.
  cbn [snd]. apply handler_payloads in H as (Hpay & _).
  destruct (deliver_known number_equal (p :: rest) _ Hpay
                          (map (fun q => blank (VStr q)) (p :: rest)))
    as (t' & D & M).
  - intros q Hq. rewrite map_map. cbn [blank fst].
    apply in_map with (f := VStr) in Hq. exact Hq.
  - exists t'. split; [exact D|]. rewrite M, map_map. reflexivity.
Qed.

Lemma deliver_fill (number_equal : number -> number -> bool) (l : list path) :
  forall vs done,
    NoDup l -> ~ In [] l ->
    List.length vs = List.length l ->
    Forall (fun v => truthy v = true) vs ->
    (forall q, In q l ->
               forallb (fun row => negb (strict_equal number_equal (fst row) (VStr q)))
                       done = true) ->
    deliver number_equal (items_of l vs)
            (done ++ map (fun q => blank (VStr q)) l)
    = Return (done ++ combine (map VStr l) vs).
Proof.
  induction l as [|p l IH]; intros vs done Hnd Hne Hlen Htr Hdone.
  - destruct vs; [|discriminate]. reflexivity.
  - destruct vs as [|v vs]; [discriminate|].
    inversion Hnd as [|? ? Hp Hnd']; subst.
    inversion Htr as [|? ? Hv Htr']; subst.
    unfold items_of. cbn [combine map deliver fst snd].
    unfold item at 1. change (blank (VStr p)) with (VStr p, VObj []).
    rewrite (on_item_update number_equal _ p done _ (VStr p) (VObj []));
      [| reflexivity | intros ->; apply Hne; simpl; auto
       | simpl; apply str_eqb_refl | apply Hdone; simpl; auto].
    cbn [bind].
    replace (or_else match obj_get (u "result")
                             [(u "filePath", VStr p); (u "result", v)] with
                     | Some r => r
                     | None => VUndefined
                     end (VObj []))
      with v by (change (v = or_else v (VObj [])); unfold or_else;
                 rewrite Hv; reflexivity).
    change (done ++ (VStr p, v) :: map (fun q => blank (VStr q)) l)
      with (done ++ [(VStr p, v)] ++ map (fun q => blank (VStr q)) l).
    rewrite app_assoc.
    change (map (fun pv => item (fst pv) (snd pv)) (combine l vs))
      with (items_of l vs).
    rewrite (IH vs (done ++ [(VStr p, v)])); auto.
    + rewrite <- app_assoc. reflexivity.
    + intros Hin. apply Hne. simpl. auto.
    + intros q Hq. rewrite forallb_app, (Hdone q) by (simpl; auto).
      simpl. destruct (str_eqb p q) eqn:E; [|reflexivity].
      apply str_eqb_eq in E. subst. contradiction.
Qed.

(** [X24]: from the batch to the table.  When the handler completes a
    batch of distinct, non-empty paths with a window open at each send, there
    is one truthy result per file, and delivering the result events to the
    listener of the table made of these files fills the table with them: row
    i holds path i and result i. *)
Theorem completed_batch_fills_table (number_equal : number -> number -> bool)
        (w : World) (l : list path) (s s' : state) (v : value) :
  l <> [] -> NoDup l -> ~ In [] l ->
  (forall t, getAllWindows w t <> []) ->
  parse_resume_pdf w (Some l) s = (Return v, s') ->
  exists vs,
    List.length vs = List.length l
    /\ Forall (fun x => truthy x = true) vs
    /\ sent (since s s') = items_of l vs
    /\ deliver number_equal (sent (since s s'))
               (map (fun q => blank (VStr q)) l)
       = Return (combine (map VStr l) vs).
Proof.
  intros Hl Hnd Hne Hw H. destruct l as [|p rest]; [congruence|].
  pose proof (handler_batch w p rest s s' (Return v) H) as Hv.
  assert (Ev : v = canceled_result false).
  { destruct Hv as [(v' & Hb & Hv) | (e & s1 & _ & Hr & _)]; [|discriminate].
    injection Hv as <-.
    apply run_batch_stages in Hb as [(e & _ & Hr) | (s0 & [[]|e] & _ & _ & Hr)];
      try discriminate.
    injection Hr as ->. reflexivity. }
  subst v.
  apply handler_payloads in H as (_ & _ & K).
  destruct (K eq_refl Hw) as (vs & Lvs & Tvs & Svs).
  exists vs. repeat split; try assumption.
  rewrite Svs.
  exact (deliver_fill number_equal (p :: rest) vs [] Hnd Hne Lvs Tvs
                      (fun _ _ => eq_refl)).
Qed.

Lemma completed_batch_fills_table_witness :
  let w := demo_world [] [7%N] (uq "{'name':'Li Lei'}") in
  let l := [u "a.pdf"; u "b.docx"] in
  let s' := snd (parse_resume_pdf w (Some l) initial_state) in
  exists vs,
    List.length vs = List.length l
    /\ Forall (fun x => truthy x = true) vs
    /\ sent (since initial_state s') = items_of l vs
    /\ deliver (fun _ _ => false) (sent (since initial_state s'))
               (map (fun q => blank (VStr q)) l)
       = Return (combine (map VStr l) vs).
Proof.
  cbv zeta.
  apply (completed_batch_fills_table
           (fun _ _ => false) (demo_world [] [7%N] (uq "{'name':'Li Lei'}"))
           [u "a.pdf"; u "b.docx"] initial_state
           (snd (parse_resume_pdf (demo_world [] [7%N] (uq "{'name':'Li Lei'}"))
                                  (Some [u "a.pdf"; u "b.docx"]) initial_state))
           (canceled_result false)).
  - discriminate.
  - repeat constructor; simpl; intuition discriminate.
  - simpl. intuition discriminate.
  - intros t. discriminate.
  - vm_compute. reflexivity.
Defined.
